(** * PhytoGuard dashboard: the sensor acquisition core of [app.py]

    A shallow embedding of the Modbus frame codec, the synthetic source,
    the acquisition loop and the history store of [src/app.py], followed
    by the properties stated about them.

    Python values are modelled as they are at run time: [bytes] as a list
    of [Byte.byte], unbounded [int] as [Z], [float] as the kernel's
    binary64 floats, [dict] with string keys as a [gmap], exceptions as
    an error monad. *)

From Stdlib Require Import ZArith Lia List Floats.
From Stdlib.Strings Require Import Byte.
From stdpp Require Import gmap strings list.

Local Open Scope Z_scope.
Set Warnings "-inexact-float".

(** ** Python values and exceptions *)

(** A Python number: [int] is unbounded, [float] is IEEE binary64. *)
Inductive num :=
| Int (z : Z)
| Float (f : float).

(** The values stored in the reading dictionaries. *)
Inductive pyval :=
| Num (n : num)
| Str (s : string).

(** The messages a [ValueError] is raised with, each with the values it
    prints: the four of [_parse_frame] and the one of [int(nan)]. *)
Inductive value_error :=
| InvalidFrameLength (len : nat)
| CrcMismatch (crc_expected crc_calc : Z)
| UnexpectedFunctionCode (code : Z)
| UnexpectedByteCount (count : Z)
| CannotConvertNaN.

Inductive exn :=
| ValueError (msg : value_error)
| OverflowError
| ZeroDivisionError
| IndexError
| SerialException.

(** The names the specification gives to the decoder's four failures. *)
Definition FrameLengthError (len : nat) : exn :=
  ValueError (InvalidFrameLength len).
Definition ChecksumError (crc_expected crc_calc : Z) : exn :=
  ValueError (CrcMismatch crc_expected crc_calc).
Definition FunctionCodeError (code : Z) : exn :=
  ValueError (UnexpectedFunctionCode code).
Definition ByteCountError (count : Z) : exn :=
  ValueError (UnexpectedByteCount count).

Inductive result (A : Type) :=
| Ok (a : A)
| Raise (e : exn).
Arguments Ok {A} a.
Arguments Raise {A} e.

(** Sequencing: an exception cuts the rest short. With these instances
    [x ← m; k] reads as the Python statement sequence it stands for. *)
#[global] Instance result_bind : MBind result := fun A B k m =>
  match m with
  | Ok a => k a
  | Raise e => Raise e
  end.
#[global] Instance result_ret : MRet result := fun A a => Ok a.

(** ** Bytes and sequences *)

Definition byte_val (b : byte) : Z := Z.of_N (Byte.to_N b).

(** [s[i]] on a sequence, negative indices counting from the end. *)
Definition py_index {A} (s : list A) (i : Z) : result A :=
  let n := Z.of_nat (length s) in
  let j := if i <? 0 then n + i else i in
  if (0 <=? j) && (j <? n)
  then match nth_error s (Z.to_nat j) with
       | Some a => Ok a
       | None => Raise IndexError
       end
  else Raise IndexError.

(** [s[:-k]]: all but the last [k] items (nothing when [s] is shorter). *)
Definition py_drop_last {A} (k : nat) (s : list A) : list A :=
  firstn (length s - k) s.

(** ** Checksum: [_crc16_modbus] *)

(** One pass of the inner [for _ in range(8)] loop. *)
Definition crc_shift (crc : Z) : Z :=
  if Z.land crc 1 =? 0
  then Z.shiftr crc 1
  else Z.lxor (Z.shiftr crc 1) 0xA001.

(** The body of [for b in data]. *)
Definition crc_byte (crc : Z) (b : byte) : Z :=
  Nat.iter 8 crc_shift (Z.lxor crc (byte_val b)).

Definition _crc16_modbus (data : list byte) : Z :=
  let crc := fold_left crc_byte data 0xFFFF in
  Z.land crc 0xFFFF.

(** The checksum as the specification words it: a 16-bit register that
    starts at 0xFFFF, takes each byte by exclusive or, and is then moved
    right by one position eight times, the polynomial 0xA001 being
    folded in whenever the bit moved out was set. The register is kept
    to 16 bits at every step. *)
Module Reference.

Definition width : Z := 16.
Definition poly : Z := 0xA001.
Definition init : Z := 0xFFFF.

Definition reg (z : Z) : Z := z mod 2 ^ width.

Definition step (r : Z) : Z :=
  let out := Z.odd r in
  let r' := reg (r / 2) in
  if out then reg (Z.lxor r' poly) else r'.

Fixpoint steps (n : nat) (r : Z) : Z :=
  match n with
  | O => r
  | S n' => steps n' (step r)
  end.

Fixpoint absorb (r : Z) (data : list byte) : Z :=
  match data with
  | [] => r
  | b :: rest => absorb (steps 8 (reg (Z.lxor r (byte_val b)))) rest
  end.

Definition checksum16 (data : list byte) : Z := absorb init data.

End Reference.

(** ** Frame codec: [QUERY_FRAME] and [_parse_frame] *)

Definition QUERY_FRAME : list byte :=
  [x01; x03; x00; x00; x00; x07; x04; x08].

(** [float(z)]: the nearest binary64, [OverflowError] beyond its range. *)
Definition float_of_int (z : Z) : result float :=
  match binary_normalize prec emax z 0 false with
  | S754_infinity _ => Raise OverflowError
  | sf => Ok (SF2Prim sf)
  end.

Definition to_float (n : num) : result float :=
  match n with
  | Int z => float_of_int z
  | Float f => Ok f
  end.

(** [a / b] where at least one side is a float. *)
Definition float_truediv (a b : num) : result num :=
  fa ← to_float a;
  fb ← to_float b;
  if PrimFloat.eqb fb 0%float then Raise ZeroDivisionError
  else Ok (Float (fa / fb)%float).

Abbreviation reading := (gmap string pyval).

(** The [for i in range(7)] loop collecting the registers. *)
Definition parse_regs (frame : list byte) : result (list Z) :=
  mapM (fun i : Z =>
          hi ← py_index frame (3 + 2 * i);
          lo ← py_index frame (4 + 2 * i);
          Ok (Z.lor (Z.shiftl (byte_val hi) 8) (byte_val lo)))
       [0; 1; 2; 3; 4; 5; 6].

Definition _parse_frame (frame : list byte) : result reading :=
  if negb (length frame =? 19)%nat
  then Raise (FrameLengthError (length frame))
  else
    let data_wo_crc := py_drop_last 2 frame in
    c_lo ← py_index frame (-2);
    c_hi ← py_index frame (-1);
    let crc_expected := Z.lor (byte_val c_lo) (Z.shiftl (byte_val c_hi) 8) in
    let crc_calc := _crc16_modbus data_wo_crc in
    if negb (crc_expected =? crc_calc)
    then Raise (ChecksumError crc_expected crc_calc)
    else
      f1 ← py_index frame 1;
      if negb (byte_val f1 =? 0x03)
      then Raise (FunctionCodeError (byte_val f1))
      else
        f2 ← py_index frame 2;
        if negb (byte_val f2 =? 14)
        then Raise (ByteCountError (byte_val f2))
        else
          regs ← parse_regs frame;
          f0 ← py_index frame 0;
          r0 ← py_index regs 0;
          humidity ← float_truediv (Int r0) (Float 10.0);
          r1 ← py_index regs 1;
          temperature ← float_truediv (Int r1) (Float 10.0);
          r2 ← py_index regs 2;
          r3 ← py_index regs 3;
          ph ← float_truediv (Int r3) (Float 10.0);
          r4 ← py_index regs 4;
          r5 ← py_index regs 5;
          r6 ← py_index regs 6;
          Ok (<["potassium" := Num (Int r6)]>
             (<["phosphorus" := Num (Int r5)]>
             (<["nitrogen" := Num (Int r4)]>
             (<["ph" := Num ph]>
             (<["conductivity" := Num (Int r2)]>
             (<["temperature" := Num temperature]>
             (<["humidity" := Num humidity]>
             (<["sensor_id" := Num (Int (byte_val f0))]> ∅)))))))).

(** ** Python arithmetic on numbers *)

(** A float against an integer, compared exactly as Python does; [None]
    for NaN, which is unordered. *)
Definition float_cmp_int (f : float) (z : Z) : option comparison :=
  match Prim2SF f with
  | S754_nan => None
  | S754_infinity s => Some (if s then Lt else Gt)
  | S754_zero _ => Some (0 ?= z)
  | S754_finite s m e =>
      let v := cond_Zopp s (Zpos m) in
      Some (if 0 <=? e then v * 2 ^ e ?= z else v ?= z * 2 ^ (- e))
  end.

(** [a < b] *)
Definition num_lt (a b : num) : bool :=
  match a, b with
  | Int x, Int y => x <? y
  | Float f, Float g => PrimFloat.ltb f g
  | Float f, Int y =>
      match float_cmp_int f y with Some Lt => true | _ => false end
  | Int x, Float g =>
      match float_cmp_int g x with Some Gt => true | _ => false end
  end.

(** [a <= b] *)
Definition num_le (a b : num) : bool :=
  match a, b with
  | Int x, Int y => x <=? y
  | Float f, Float g => PrimFloat.leb f g
  | Float f, Int y =>
      match float_cmp_int f y with Some (Lt | Eq) => true | _ => false end
  | Int x, Float g =>
      match float_cmp_int g x with Some (Gt | Eq) => true | _ => false end
  end.

(** [min(a, b)] keeps [a] unless [b < a]; [max(a, b)] unless [b > a]. *)
Definition py_min (a b : num) : num := if num_lt b a then b else a.
Definition py_max (a b : num) : num := if num_lt a b then b else a.

(** [a + b] *)
Definition num_add (a b : num) : result num :=
  match a, b with
  | Int x, Int y => Ok (Int (x + y))
  | _, _ =>
      fa ← to_float a;
      fb ← to_float b;
      Ok (Float (fa + fb)%float)
  end.

(** [int(f)]: truncation towards zero; NaN and the infinities raise. *)
Definition int_of_float (f : float) : result Z :=
  match Prim2SF f with
  | S754_nan => Raise (ValueError CannotConvertNaN)
  | S754_infinity _ => Raise OverflowError
  | S754_zero _ => Ok 0
  | S754_finite s m e =>
      Ok (cond_Zopp s (if 0 <=? e then Zpos m * 2 ^ e else Zpos m / 2 ^ (- e)))
  end.

(** ** History buffer: [deque(maxlen=HISTORY_MAX)] *)

(** [collections.deque.append] on a bounded deque: the item goes to the
    right end, and the leftmost one is dropped when the bound is passed. *)
Definition deque_append {A} (maxlen : nat) (d : list A) (x : A) : list A :=
  let d' := d ++ [x] in
  if (maxlen <? length d')%nat then tail d' else d'.

(** ** Synthetic source: the [else] branch of the worker loop *)

Record sim := {
  humidity : num;
  temperature : num;
  conductivity : Z;
  ph : num;
  nitrogen : Z;
  phosphorus : Z;
  potassium : Z;
}.

(** The four count fields start as [int]s and only ever receive
    [int + int] and [max(0, int)]: they are [int]s throughout. *)
Definition sim_state0 : sim := {|
  humidity := Float 55.0;
  temperature := Float 28.5;
  conductivity := 450;
  ph := Float 6.5;
  nitrogen := 20;
  phosphorus := 15;
  potassium := 30;
|}.

(** A statement on [sim_state]: it either assigns or raises, leaving the
    dictionary as it was. *)
Definition stmt := sim -> result sim.

(** Statements in sequence; at an exception the assignments already made
    stay, as they do in the dictionary the worker keeps across cycles. *)
Fixpoint exec (body : list stmt) (s : sim) : sim * result unit :=
  match body with
  | [] => (s, Ok tt)
  | st :: rest =>
      match st s with
      | Ok s' => exec rest s'
      | Raise e => (s, Raise e)
      end
  end.

Definition set_humidity (v : num) (s : sim) : sim :=
  {| humidity := v; temperature := temperature s;
     conductivity := conductivity s; ph := ph s; nitrogen := nitrogen s;
     phosphorus := phosphorus s; potassium := potassium s |}.
Definition set_temperature (v : num) (s : sim) : sim :=
  {| humidity := humidity s; temperature := v;
     conductivity := conductivity s; ph := ph s; nitrogen := nitrogen s;
     phosphorus := phosphorus s; potassium := potassium s |}.
Definition set_conductivity (v : Z) (s : sim) : sim :=
  {| humidity := humidity s; temperature := temperature s;
     conductivity := v; ph := ph s; nitrogen := nitrogen s;
     phosphorus := phosphorus s; potassium := potassium s |}.
Definition set_ph (v : num) (s : sim) : sim :=
  {| humidity := humidity s; temperature := temperature s;
     conductivity := conductivity s; ph := v; nitrogen := nitrogen s;
     phosphorus := phosphorus s; potassium := potassium s |}.
Definition set_nitrogen (v : Z) (s : sim) : sim :=
  {| humidity := humidity s; temperature := temperature s;
     conductivity := conductivity s; ph := ph s; nitrogen := v;
     phosphorus := phosphorus s; potassium := potassium s |}.
Definition set_phosphorus (v : Z) (s : sim) : sim :=
  {| humidity := humidity s; temperature := temperature s;
     conductivity := conductivity s; ph := ph s; nitrogen := nitrogen s;
     phosphorus := v; potassium := potassium s |}.
Definition set_potassium (v : Z) (s : sim) : sim :=
  {| humidity := humidity s; temperature := temperature s;
     conductivity := conductivity s; ph := ph s; nitrogen := nitrogen s;
     phosphorus := phosphorus s; potassium := v |}.

(** [c1 - c2 * random.random()] with float constants. *)
Definition noise (c1 c2 r : float) : float := (c1 - c2 * r)%float.

(** [int(c1 - c2 * random.random())]; [c1] and [c2] are [2] and [4], or
    [0.4] and [0.8], all exactly the floats Python converts them to. *)
Definition int_noise (c1 c2 r : float) : result Z :=
  int_of_float (noise c1 c2 r).

(** The seven [+=] of lines 120-126; [rnd k] is what the [k]-th call of
    [random.random()] in this cycle returns. *)
Definition sim_perturb (rnd : nat -> float) : list stmt := [
  (fun s => v ← num_add (humidity s) (Float (noise 0.1 0.2 (rnd 0%nat)));
            Ok (set_humidity v s));
  (fun s => v ← num_add (temperature s) (Float (noise 0.05 0.1 (rnd 1%nat)));
            Ok (set_temperature v s));
  (fun s => v ← num_add (ph s) (Float (noise 0.02 0.04 (rnd 2%nat)));
            Ok (set_ph v s));
  (fun s => d ← int_noise 2 4 (rnd 3%nat);
            Ok (set_conductivity (conductivity s + d) s));
  (fun s => d ← int_noise 0.4 0.8 (rnd 4%nat);
            Ok (set_nitrogen (nitrogen s + d) s));
  (fun s => d ← int_noise 0.4 0.8 (rnd 5%nat);
            Ok (set_phosphorus (phosphorus s + d) s));
  (fun s => d ← int_noise 0.4 0.8 (rnd 6%nat);
            Ok (set_potassium (potassium s + d) s))
].

(** The seven clamps of lines 128-134. *)
Definition sim_clamp : list stmt := [
  (fun s => Ok (set_humidity
                  (py_max (Int 0) (py_min (Int 100) (humidity s))) s));
  (fun s => Ok (set_temperature
                  (py_max (Int (-20)) (py_min (Int 60) (temperature s))) s));
  (fun s => Ok (set_ph (py_max (Int 0) (py_min (Int 14) (ph s))) s));
  (fun s => Ok (set_conductivity (Z.max 0 (conductivity s)) s));
  (fun s => Ok (set_nitrogen (Z.max 0 (nitrogen s)) s));
  (fun s => Ok (set_phosphorus (Z.max 0 (phosphorus s)) s));
  (fun s => Ok (set_potassium (Z.max 0 (potassium s)) s))
].

Definition sim_step (rnd : nat -> float) (s : sim) : sim * result unit :=
  exec (sim_perturb rnd ++ sim_clamp) s.

(** [{"sensor_id": 1, **sim_state}] *)
Definition sim_reading (s : sim) : reading :=
  <["potassium" := Num (Int (potassium s))]>
  (<["phosphorus" := Num (Int (phosphorus s))]>
  (<["nitrogen" := Num (Int (nitrogen s))]>
  (<["ph" := Num (ph s)]>
  (<["conductivity" := Num (Int (conductivity s))]>
  (<["temperature" := Num (temperature s)]>
  (<["humidity" := Num (humidity s)]>
  (<["sensor_id" := Num (Int 1)]> ∅))))))).

(** The documented range of every field. *)
Definition within (lo hi : Z) (v : num) : Prop :=
  num_le (Int lo) v = true /\ num_le v (Int hi) = true.

Record in_range (s : sim) : Prop := {
  humidity_range : within 0 100 (humidity s);
  temperature_range : within (-20) 60 (temperature s);
  ph_range : within 0 14 (ph s);
  conductivity_range : 0 <= conductivity s;
  nitrogen_range : 0 <= nitrogen s;
  phosphorus_range : 0 <= phosphorus s;
  potassium_range : 0 <= potassium s;
}.

(** ** Acquisition loop: [_serial_worker] *)

Record config := {
  COM_PORT : string;
  BAUDRATE : Z;
  POLL_INTERVAL : float;
  HISTORY_MAX : nat;
  FALLBACK_TO_SIM : bool;
}.

(** An open [serial.Serial] object. *)
Record Serial := { port : string; baud : Z }.

(** The module-level state shared with the request handlers. *)
Record globals := {
  history : list reading;
  _last_seq : Z;
  _is_simulating : bool;
}.

(** The worker's locals that live across cycles. *)
Record locals := {
  ser : option Serial;
  sim_state : sim;
}.

Definition wstate : Type := globals * locals.

(** What the worker does that others can observe, in order: its calls
    on the link, its sleeps, its use of [_cond], and its writes to the
    module's globals. *)
Inductive event :=
| EOpen (p : string) (b : Z)
| EResetInput
| EWrite (data : list byte)
| ERead (n : nat)
| EClose
| ESleep (seconds : float)
| EAcquire
| EAppend (d : reading)
| ESeq (v : Z)
| ENotifyAll
| ERelease
| ESimulating (v : bool).

(** What the outside does to the worker during one cycle: the outcome of
    each call on the link, the values of [random.random()] and the clock. *)
Record world := {
  reset_input_buffer : result unit;
  write : result unit;
  read : result (list byte);
  close : result unit;
  random : nat -> float;
  utcnow_isoformat : string;
}.

(** Worker code: it changes the state, leaves a trace, and returns or
    raises. State and trace survive an exception. *)
Definition M (A : Type) : Type := wstate -> wstate * list event * result A.

Definition ret {A} (a : A) : M A := fun s => (s, [], Ok a).

Definition seq_ {A B} (m : M A) (k : A -> M B) : M B := fun s =>
  match m s with
  | (s1, t1, Ok a) => let '(s2, t2, r) := k a s1 in (s2, t1 ++ t2, r)
  | (s1, t1, Raise e) => (s1, t1, Raise e)
  end.

#[global] Instance M_bind : MBind M := fun A B k m => seq_ m k.
#[global] Instance M_ret : MRet M := fun A a => ret a.

Definition emit (e : event) : M unit := fun s => (s, [e], Ok tt).
Definition lift {A} (r : result A) : M A := fun s => (s, [], r).
Definition get : M wstate := fun s => (s, [], Ok s).
Definition update (f : wstate -> wstate) : M unit := fun s => (f s, [], Ok tt).

(** [try: body / except Exception: handler] *)
Definition try_except (body handler : M unit) : M unit := fun s =>
  match body s with
  | (s1, t1, Ok a) => (s1, t1, Ok a)
  | (s1, t1, Raise _) => let '(s2, t2, r) := handler s1 in (s2, t1 ++ t2, r)
  end.

Definition pass : M unit := ret tt.

Definition sleep (seconds : float) : M unit := emit (ESleep seconds).

Definition set_ser (v : option Serial) : wstate -> wstate :=
  fun '(g, l) => (g, {| ser := v; sim_state := sim_state l |}).
Definition set_sim_state (v : sim) : wstate -> wstate :=
  fun '(g, l) => (g, {| ser := ser l; sim_state := v |}).
Definition set_history (v : list reading) : wstate -> wstate :=
  fun '(g, l) => ({| history := v; _last_seq := _last_seq g;
                     _is_simulating := _is_simulating g |}, l).
Definition set_last_seq (v : Z) : wstate -> wstate :=
  fun '(g, l) => ({| history := history g; _last_seq := v;
                     _is_simulating := _is_simulating g |}, l).
Definition set_is_simulating (v : bool) : wstate -> wstate :=
  fun '(g, l) => ({| history := history g; _last_seq := _last_seq g;
                     _is_simulating := v |}, l).

(** [history.append(data)] *)
Definition history_append (cfg : config) (data : reading) : M unit :=
  '(g, _) ← get;
  update (set_history (deque_append (HISTORY_MAX cfg) (history g) data));;
  emit (EAppend data).

(** [_last_seq += 1] *)
Definition incr_last_seq : M unit :=
  '(g, _) ← get;
  update (set_last_seq (_last_seq g + 1));;
  emit (ESeq (_last_seq g + 1)).

(** [_is_simulating = v] *)
Definition store_is_simulating (v : bool) : M unit :=
  update (set_is_simulating v);;
  emit (ESimulating v).

(** [max(0.1, POLL_INTERVAL - 0.2)], the sleep that ends a cycle. *)
Definition cycle_rest (cfg : config) : float :=
  let rest := (POLL_INTERVAL cfg - 0.2)%float in
  if PrimFloat.ltb 0.1 rest then rest else 0.1%float.

(** Lines 138-143: stamp the reading and publish it under [_cond]. *)
Definition publish (cfg : config) (w : world) (data : reading) : M unit :=
  let data := <["timestamp" := Str (utcnow_isoformat w +:+ "Z")]> data in
  emit EAcquire;;
  history_append cfg data;;
  incr_last_seq;;
  emit ENotifyAll;;
  emit ERelease;;
  sleep (cycle_rest cfg).

(** Lines 107-117: one exchange with the device. *)
Definition physical_cycle (cfg : config) (w : world) : M unit :=
  try_except (emit EResetInput;; lift (reset_input_buffer w)) pass;;
  emit (EWrite QUERY_FRAME);;
  lift (write w);;
  sleep 0.2;;
  emit (ERead 19);;
  resp ← lift (read w);
  if negb (length resp =? 19)%nat
  then sleep (cycle_rest cfg) (* continue *)
  else
    data ← lift (_parse_frame resp);
    publish cfg w data.

(** Lines 119-136: one synthetic sample. *)
Definition simulated_cycle (cfg : config) (w : world) : M unit :=
  '(_, l) ← get;
  let '(s', r) := sim_step (random w) (sim_state l) in
  update (set_sim_state s');;
  lift r;;
  publish cfg w (sim_reading s').

(** Lines 144-152: the [except Exception] of the loop. *)
Definition on_exception (cfg : config) (w : world) : M unit :=
  '(_, l) ← get;
  (if bool_decide (ser l <> None) && FALLBACK_TO_SIM cfg
   then
     try_except (emit EClose;; lift (close w)) pass;;
     update (set_ser None);;
     store_is_simulating true
   else pass);;
  sleep 1.0.

(** One pass of [while True]. *)
Definition iteration (cfg : config) (w : world) : M unit :=
  try_except
    ('(_, l) ← get;
     match ser l with
     | Some _ => physical_cycle cfg w
     | None => simulated_cycle cfg w
     end)
    (on_exception cfg w).

(** The state and the trace after a cycle; the cycle itself never raises
    (see [iteration_returns]). *)
Definition step (cfg : config) (w : world) (s : wstate) : wstate * list event :=
  fst (iteration cfg w s).

(** Successive cycles, one [world] each. *)
Fixpoint run (cfg : config) (ws : list world) (s : wstate)
  : wstate * list event :=
  match ws with
  | [] => (s, [])
  | w :: ws' =>
      let '(s1, t1) := step cfg w s in
      let '(s2, t2) := run cfg ws' s1 in
      (s2, t1 ++ t2)
  end.

(** The module's initial state. *)
Definition globals0 : globals :=
  {| history := []; _last_seq := 0; _is_simulating := false |}.

(** Lines 79-100: opening the link. [pyserial] tells whether the [serial]
    module could be imported, [opened] what [serial.Serial(...)] does. *)
Definition connect (cfg : config) (pyserial : bool) (opened : result Serial)
  : M unit :=
  update (set_ser None);;
  (if pyserial
   then
     emit (EOpen (COM_PORT cfg) (BAUDRATE cfg));;
     match opened with
     | Ok link =>
         update (set_ser (Some link));;
         store_is_simulating false
     | Raise e =>
         if negb (FALLBACK_TO_SIM cfg)
         then lift (Raise e)
         else update (set_ser None);; store_is_simulating true
     end
   else store_is_simulating true);;
  update (set_sim_state sim_state0).

(** ** Event stream: the generator of [stream] *)

(** What one resumption of [event_stream] comes to. *)
Inductive stream_outcome :=
| Blocked
| Yield (payload : reading) (last_seen : Z)
| Failed (e : exn).

(** [_cond.wait_for(pred)] tests [pred] on entry and again after every
    notification, each time holding the lock: [gs] lists the shared state
    as it is at these moments. It returns at the first state where [pred]
    holds, and is still waiting if there is none. *)
Fixpoint wait_for (pred : globals -> bool) (gs : list globals)
  : option globals :=
  match gs with
  | [] => None
  | g :: gs' => if pred g then Some g else wait_for pred gs'
  end.

(** Lines 185-189, with the reading standing for its JSON text. *)
Definition event_stream (last_seen : Z) (gs : list globals) : stream_outcome :=
  match wait_for (fun g => negb (_last_seq g =? last_seen)) gs with
  | None => Blocked
  | Some g =>
      let last_seen := _last_seq g in
      match py_index (history g) (-1) with
      | Ok d => Yield d last_seen
      | Raise e => Failed e
      end
  end.

(** ** Request handlers: [start_worker_once], [status], [get_history] *)

(** The values [status()] hands to [jsonify]. *)
Inductive json :=
| JBool (b : bool)
| JInt (z : Z)
| JStr (s : string).

(** [status()]: it reads the globals and starts nothing. *)
Definition status (cfg : config) (g : globals) : gmap string json :=
  <["history_len" := JInt (Z.of_nat (length (history g)))]>
  (<["baudrate" := JInt (BAUDRATE cfg)]>
  (<["com_port" := JStr (COM_PORT cfg)]>
  (<["simulating" := JBool (_is_simulating g)]> ∅))).

(** [s[-k:]] for a positive [k]: the last [k] items, all of [s] when it
    has fewer. *)
Definition py_take_last {A} (k : nat) (s : list A) : list A :=
  skipn (length s - k) s.

(** [list(history)[-500:]], what [get_history()] hands to [jsonify]. *)
Definition get_history (g : globals) : list reading :=
  py_take_last 500 (history g).

(** [start_worker_once()] on the flag [_worker_started]: the new flag,
    and the number of threads it started. *)
Definition start_worker_once (_worker_started : bool) : bool * nat :=
  if negb _worker_started then (true, 1%nat) else (_worker_started, 0%nat).

(** The four routes. *)
Inductive route := Index | Status | History | Stream.

(** What a request does to [_worker_started]: every handler but
    [status] begins with [start_worker_once()]. *)
Definition handle (r : route) (_worker_started : bool) : bool * nat :=
  match r with
  | Status => (_worker_started, 0%nat)
  | Index | History | Stream => start_worker_once _worker_started
  end.

(** Requests in sequence, with the number of threads started in all. *)
Fixpoint serve (rs : list route) (_worker_started : bool) : bool * nat :=
  match rs with
  | [] => (_worker_started, 0%nat)
  | r :: rs' =>
      let '(f1, n1) := handle r _worker_started in
      let '(f2, n2) := serve rs' f1 in
      (f2, (n1 + n2)%nat)
  end.

(** The [while True] of [event_stream]: [gs] lists the shared state at
    the moments the generator tests its predicate, as for [wait_for].
    It gives what the generator yields, each reading with the value
    [last_seen] takes, and the exception that ends it if one does; with
    none it is left waiting. *)
Fixpoint event_stream_loop (last_seen : Z) (gs : list globals)
  : list (reading * Z) * option exn :=
  match gs with
  | [] => ([], None)
  | g :: gs' =>
      if negb (_last_seq g =? last_seen)
      then
        let last_seen := _last_seq g in
        match py_index (history g) (-1) with
        | Ok d =>
            let '(ys, e) := event_stream_loop last_seen gs' in
            ((d, last_seen) :: ys, e)
        | Raise e => ([], Some e)
        end
      else event_stream_loop last_seen gs'
  end.

(** * Notions used in the statements *)

(** A value that fits 16 bits. *)
Definition u16 (z : Z) : Prop := 0 <= z < 2 ^ 16.

(** A binary64 value that is finite and below [2 ^ B] in magnitude. *)
Definition mag (B : Z) (x : spec_float) : Prop :=
  match x with
  | S754_zero _ => True
  | S754_finite _ m e => Zpos (digits2_pos m) + e <= B
  | _ => False
  end.

(** [r'] is [r] moved right by [k] positions: the mantissa stays
    non-negative and loses [k] digits. *)
Definition shr_dig (k : Z) (r r' : shr_record) : Prop :=
  0 <= shr_m r ->
  0 <= shr_m r' /\ Zdigits2 (shr_m r') = Z.max (Zdigits2 (shr_m r) - k) 0.

(** The value of byte [i] of a frame, counting from 0. *)
Definition byte_at (frame : list byte) (i : nat) : Z :=
  byte_val (nth i frame x00).

(** The checksum a 19-byte response carries: its last two bytes, the low
    one first. *)
Definition trailing_crc (frame : list byte) : Z :=
  byte_at frame 17 + 256 * byte_at frame 18.

(** Register [i] of a response: bytes [3 + 2 i] and [4 + 2 i], the high
    one first. *)
Definition register (frame : list byte) (i : nat) : Z :=
  256 * byte_at frame (3 + 2 * i) + byte_at frame (4 + 2 * i).

(** A register holding tenths, as the float Python divides it to. *)
Definition tenths (r : Z) : num :=
  Float (of_uint63 (Uint63.of_Z r) / 10)%float.

(** The reading a valid response stands for. *)
Definition decoded (frame : list byte) : reading :=
  <["potassium" := Num (Int (register frame 6))]>
  (<["phosphorus" := Num (Int (register frame 5))]>
  (<["nitrogen" := Num (Int (register frame 4))]>
  (<["ph" := Num (tenths (register frame 3))]>
  (<["conductivity" := Num (Int (register frame 2))]>
  (<["temperature" := Num (tenths (register frame 1))]>
  (<["humidity" := Num (tenths (register frame 0))]>
  (<["sensor_id" := Num (Int (byte_at frame 0))]> ∅))))))).

(** The byte of value [z mod 256]. *)
Definition byte_of_Z (z : Z) : byte :=
  match Byte.of_N (Z.to_N (z mod 256)) with
  | Some b => b
  | None => x00
  end.

(** What the device does to a message before sending it: the checksum
    follows, low byte first. *)
Definition append_crc (body : list byte) : list byte :=
  let crc := _crc16_modbus body in
  body ++ [byte_of_Z crc; byte_of_Z (crc / 256)].

(** A response of the device at [address] carrying seven registers. *)
Definition response (address : byte) (regs : list Z) : list byte :=
  append_crc (address :: x03 :: x0e ::
              flat_map (fun r => [byte_of_Z (r / 256); byte_of_Z r]) regs).

(** The response of the specification's example: registers 550, 350,
    400, 65, 20, 15 and 30 from the device at address 1. *)
Definition sample_response : list byte :=
  response x01 [550; 350; 400; 65; 20; 15; 30].

(** Responses that are well formed up to one stage of the decoder. *)
Definition zeros (n : nat) : list byte := repeat x00 n.
Definition wrong_function : list byte :=
  append_crc (x01 :: x04 :: x0e :: zeros 14).
Definition wrong_count : list byte :=
  append_crc (x01 :: x03 :: x0d :: zeros 14).

(** The readings a trace appends to the history, in order. *)
Definition appended (tr : list event) : list reading :=
  omap (fun e => match e with EAppend d => Some d | _ => None end) tr.

(** The events that touch neither [_cond], the history, the counter nor
    the opening of the link. *)
Definition quiet (e : event) : bool :=
  match e with
  | EResetInput | EWrite _ | ERead _ | EClose | ESleep _ | ESimulating _ =>
      true
  | _ => false
  end.

(** Where the worker stands with respect to [_cond]. *)
Inductive stage := Unlocked | Locked | Appended | Counted | Notified.

(** A monitor for the publishing discipline. It accepts an append only
    right after the lock is taken, then requires the counter to be stored
    at its old value plus one, then the notification, then the release;
    outside the lock it accepts the quiet events only. It follows the
    counter as it goes. *)
Definition monitor_step (m : stage * Z) (e : event) : option (stage * Z) :=
  let '(st, n) := m in
  match st, e with
  | Unlocked, EAcquire => Some (Locked, n)
  | Locked, EAppend _ => Some (Appended, n)
  | Appended, ESeq v => if v =? n + 1 then Some (Counted, v) else None
  | Counted, ENotifyAll => Some (Notified, n)
  | Notified, ERelease => Some (Unlocked, n)
  | Unlocked, _ => if quiet e then Some (Unlocked, n) else None
  | _, _ => None
  end.

Fixpoint monitor (m : stage * Z) (tr : list event) : option (stage * Z) :=
  match tr with
  | [] => Some m
  | e :: tr' =>
      match monitor_step m e with
      | Some m' => monitor m' tr'
      | None => None
      end
  end.

(** The events of a critical section publishing [d] as number [n]. *)
Definition critical_section (d : reading) (n : Z) : list event :=
  [EAcquire; EAppend d; ESeq n; ENotifyAll; ERelease].

(** What one exchange with the device brings back: the bytes read, or
    the exception of the write or of the read. *)
Definition exchange (w : world) : result (list byte) :=
  write w ≫= fun _ => read w.

(** The events of the exchange, up to where it stops. *)
Definition exchange_trace (w : world) : list event :=
  [EResetInput; EWrite QUERY_FRAME] ++
  match write w with
  | Ok _ => [ESleep 0.2; ERead 19]
  | Raise _ => []
  end.

(** The outcome of a physical cycle: a reading, nothing (a short read),
    or a failure (an I/O error on write or read, or a decode error). *)
Definition physical_outcome (w : world) : result (option reading) :=
  resp ← exchange w;
  if negb (length resp =? 19)%nat then Ok None
  else data ← _parse_frame resp; Ok (Some data).

(** [data] with its time stamp. *)
Definition stamped (w : world) (data : reading) : reading :=
  <["timestamp" := Str (utcnow_isoformat w +:+ "Z")]> data.

(** The shared state after [d] is published. *)
Definition published (cfg : config) (d : reading) (g : globals) : globals :=
  {| history := deque_append (HISTORY_MAX cfg) (history g) d;
     _last_seq := _last_seq g + 1;
     _is_simulating := _is_simulating g |}.

(** Appends the monitor has seen but not yet seen counted. *)
Definition pending (st : stage) : Z :=
  match st with
  | Appended => 1
  | _ => 0
  end.

(** A world for a synthetic cycle: the link is not used, every draw is
    one half. *)
Definition calm_world : world := {|
  reset_input_buffer := Ok tt;
  write := Ok tt;
  read := Ok [];
  close := Ok tt;
  random := fun _ => 0.5%float;
  utcnow_isoformat := "2024-01-01T00:00:00";
|}.

(** A world in which the device answers with the example response. *)
Definition answering_world : world := {|
  reset_input_buffer := Ok tt;
  write := Ok tt;
  read := Ok sample_response;
  close := Ok tt;
  random := fun _ => 0.5%float;
  utcnow_isoformat := "2024-01-01T00:00:01";
|}.

(** A world in which the write to the link fails. *)
Definition broken_world : world := {|
  reset_input_buffer := Ok tt;
  write := Raise SerialException;
  read := Raise SerialException;
  close := Ok tt;
  random := fun _ => 0.5%float;
  utcnow_isoformat := "2024-01-01T00:00:02";
|}.

(** The defaults of the module, with a history of [cap] readings and
    fall-back to simulation as [fallback] says. *)
Definition default_config (cap : nat) (fallback : bool) : config := {|
  COM_PORT := "COM4";
  BAUDRATE := 4800;
  POLL_INTERVAL := 1.0;
  HISTORY_MAX := cap;
  FALLBACK_TO_SIM := fallback;
|}.

Definition com4 : Serial := {| port := "COM4"; baud := 4800 |}.

(** The worker's state when its loop starts, on an open link or
    simulating. *)
Definition started (link : option Serial) : wstate :=
  ({| history := []; _last_seq := 0;
      _is_simulating := bool_decide (link = None) |},
   {| ser := link; sim_state := sim_state0 |}).

(** A physical cycle fails with [e]: the write or the read raises it, or
    a full response of 19 bytes does not decode. *)
Definition physical_failure (w : world) (e : exn) : Prop :=
  write w = Raise e \/
  (exists u, write w = Ok u /\ read w = Raise e) \/
  (exists u resp, write w = Ok u /\ read w = Ok resp /\
                  length resp = 19%nat /\ _parse_frame resp = Raise e).

(** The module's globals when the worker enters its loop: nothing in
    the history, the counter at zero, the flag as opening the link left
    it. *)
Definition initial (simulating : bool) : globals :=
  {| history := []; _last_seq := 0; _is_simulating := simulating |}.

(** The recovery the specification describes for a failed physical
    cycle [w] followed by the cycles [later]: the link is closed; with
    fall-back the worker is then simulating, without it the link is
    opened again afterwards. *)
Definition closes_then_reconnects (cfg : config) (w : world) (s : wstate)
    (later : list world) : Prop :=
  let '((g1, l1), t1) := step cfg w s in
  let '(_, t2) := run cfg later (g1, l1) in
  EClose ∈ t1 /\
  if FALLBACK_TO_SIM cfg
  then ser l1 = None /\ _is_simulating g1 = true
  else exists p b, EOpen p b ∈ t2.

(** A value [random.random()] can return: a float in [0, 1). *)
Definition unit_draw (r : float) : Prop :=
  (0 <=? r)%float = true /\ (r <? 1)%float = true.

(** Successive calls of the synthetic source, one sequence of draws
    each: the states after each call, or the exception that stops them. *)
Fixpoint sim_run (rnds : list (nat -> float)) (s : sim) : result (list sim) :=
  match rnds with
  | [] => Ok []
  | rnd :: rest =>
      match sim_step rnd s with
      | (s', Ok _) => states ← sim_run rest s'; Ok (s' :: states)
      | (_, Raise e) => Raise e
      end
  end.

(** The shared state after each of the cycles [ws], in order. *)
Fixpoint states (cfg : config) (ws : list world) (s : wstate) : list globals :=
  match ws with
  | [] => []
  | w :: ws' =>
      let s1 := fst (step cfg w s) in
      fst s1 :: states cfg ws' s1
  end.

(** A reading the worker has stamped: it has the eight fields the
    decoder and the synthetic source give, and a ["timestamp"] that is a
    string ending in ["Z"]. *)
Definition well_formed (d : reading) : Prop :=
  dom d = list_to_set ["sensor_id"; "humidity"; "temperature";
                       "conductivity"; "ph"; "nitrogen"; "phosphorus";
                       "potassium"; "timestamp"] /\
  exists t, d !! "timestamp" = Some (Str (t +:+ "Z")).

(** The events that use the link. *)
Definition uses_link (e : event) : bool :=
  match e with
  | EOpen _ _ | EResetInput | EWrite _ | ERead _ | EClose => true
  | _ => false
  end.

(** The routes whose handler begins with [start_worker_once()]. *)
Definition starts_worker (r : route) : bool :=
  match r with
  | Status => false
  | Index | History | Stream => true
  end.

(** The first thing a run of the generator comes to. *)
Definition first_outcome (run : list (reading * Z) * option exn)
  : stream_outcome :=
  match run with
  | ((d, n) :: _, _) => Yield d n
  | ([], Some e) => Failed e
  | ([], None) => Blocked
  end.

(** A world like [calm_world] but for a link that can neither be reset
    nor closed. *)
Definition deaf_world : world := {|
  reset_input_buffer := Raise SerialException;
  write := Ok tt;
  read := Ok [];
  close := Raise SerialException;
  random := fun _ => 0.5%float;
  utcnow_isoformat := "2024-01-01T00:00:00";
|}.

(** * Properties *)

(** ** Bytes and 16-bit quantities *)

Lemma byte_val_range (b : byte) : 0 <= byte_val b < 256.
Proof.
  unfold byte_val. pose proof (Byte.to_N_bounded b). lia.
Qed.

Lemma lxor_below (n a b : Z) :
  0 <= n -> 0 <= a < 2 ^ n -> 0 <= b < 2 ^ n -> 0 <= Z.lxor a b < 2 ^ n.
Proof.
  intros Hn Ha Hb.
  assert (Hnn : 0 <= Z.lxor a b) by (apply Z.lxor_nonneg; lia).
  split; [exact Hnn|].
  destruct (Z.eq_dec (Z.lxor a b) 0) as [->|Hz]; [lia|].
  assert (Hpos : 0 < n).
  { destruct (Z.eq_dec n 0) as [->|]; [|lia]. exfalso. apply Hz.
    change (2 ^ 0) with 1 in *. replace a with 0 by lia.
    replace b with 0 by lia. reflexivity. }
  apply Z.log2_lt_pow2; [lia|].
  eapply Z.le_lt_trans; [apply Z.log2_lxor; lia|].
  apply Z.max_lub_lt.
  - destruct (Z.eq_dec a 0) as [->|]; [simpl; lia|].
    apply Z.log2_lt_pow2; lia.
  - destruct (Z.eq_dec b 0) as [->|]; [simpl; lia|].
    apply Z.log2_lt_pow2; lia.
Qed.

Lemma lor_below (n a b : Z) :
  0 <= n -> 0 <= a < 2 ^ n -> 0 <= b < 2 ^ n -> 0 <= Z.lor a b < 2 ^ n.
Proof.
  intros Hn Ha Hb.
  assert (Hnn : 0 <= Z.lor a b) by (apply Z.lor_nonneg; lia).
  split; [exact Hnn|].
  destruct (Z.eq_dec (Z.lor a b) 0) as [->|Hz]; [lia|].
  assert (Hpos : 0 < n).
  { destruct (Z.eq_dec n 0) as [->|]; [|lia]. exfalso. apply Hz.
    change (2 ^ 0) with 1 in *. replace a with 0 by lia.
    replace b with 0 by lia. reflexivity. }
  apply Z.log2_lt_pow2; [lia|].
  rewrite Z.log2_lor by lia.
  apply Z.max_lub_lt.
  - destruct (Z.eq_dec a 0) as [->|]; [simpl; lia|].
    apply Z.log2_lt_pow2; lia.
  - destruct (Z.eq_dec b 0) as [->|]; [simpl; lia|].
    apply Z.log2_lt_pow2; lia.
Qed.

Lemma land_1_odd (z : Z) : (Z.land z 1 =? 0) = negb (Z.odd z).
Proof.
  change 1 with (Z.ones 1). rewrite Z.land_ones by lia.
  change (2 ^ 1) with 2. rewrite Zmod_odd.
  destruct (Z.odd z); reflexivity.
Qed.

(** ** The checksum *)

Section Checksum.

Lemma crc_shift_u16 crc : u16 crc -> u16 (crc_shift crc).
Proof.
  unfold u16, crc_shift. intros H.
  assert (Hs : 0 <= Z.shiftr crc 1 < 2 ^ 15).
  { rewrite Z.shiftr_div_pow2 by lia. change (2 ^ 1) with 2.
    split; [apply Z.div_pos; lia|].
    apply Z.div_lt_upper_bound; lia. }
  destruct (Z.land crc 1 =? 0); [lia|].
  apply lxor_below; lia.
Qed.

Lemma crc_shift_step crc : u16 crc -> crc_shift crc = Reference.step crc.
Proof.
  intros H. pose proof (crc_shift_u16 crc H) as Hr. revert Hr.
  unfold crc_shift, Reference.step, Reference.reg, Reference.poly,
    Reference.width, u16 in *.
  rewrite land_1_odd, Z.shiftr_div_pow2 by lia. change (2 ^ 1) with 2.
  assert (0 <= crc / 2 < 2 ^ 15).
  { split; [apply Z.div_pos; lia|]. apply Z.div_lt_upper_bound; lia. }
  rewrite (Z.mod_small (crc / 2)) by lia.
  destruct (Z.odd crc); simpl negb; cbv iota; intros Hr.
  - rewrite Z.mod_small by lia. reflexivity.
  - reflexivity.
Qed.

Lemma iter_crc_shift n crc :
  u16 crc ->
  u16 (Nat.iter n crc_shift crc) /\
  Nat.iter n crc_shift crc = Reference.steps n crc.
Proof.
  revert crc. induction n as [|n IH]; intros crc H; [split; [exact H|reflexivity]|].
  rewrite Nat.iter_succ_r. cbn [Reference.steps].
  rewrite <- crc_shift_step by exact H.
  apply IH, crc_shift_u16, H.
Qed.

Lemma crc_byte_u16 crc b : u16 crc -> u16 (crc_byte crc b).
Proof.
  intros H. unfold crc_byte. apply iter_crc_shift.
  pose proof (byte_val_range b). apply lxor_below; unfold u16 in H; lia.
Qed.

Lemma fold_crc_byte_u16 data crc :
  u16 crc -> u16 (fold_left crc_byte data crc).
Proof.
  revert crc. induction data as [|b data IH]; intros crc H; [exact H|].
  cbn [fold_left]. apply IH, crc_byte_u16, H.
Qed.

Lemma fold_crc_byte_absorb data crc :
  u16 crc -> fold_left crc_byte data crc = Reference.absorb crc data.
Proof.
  revert crc. induction data as [|b data IH]; intros crc H; [reflexivity|].
  cbn [fold_left Reference.absorb].
  rewrite IH by (apply crc_byte_u16, H). f_equal.
  unfold crc_byte.
  assert (Hx : u16 (Z.lxor crc (byte_val b))).
  { pose proof (byte_val_range b). apply lxor_below; unfold u16 in H; lia. }
  unfold Reference.reg, Reference.width.
  rewrite (Z.mod_small (Z.lxor crc (byte_val b))) by exact Hx.
  apply iter_crc_shift, Hx.
Qed.

Lemma mask_u16 z : u16 z -> Z.land z 0xFFFF = z.
Proof.
  intros H. change 0xFFFF with (Z.ones 16).
  rewrite Z.land_ones by lia. apply Z.mod_small, H.
Qed.

Lemma crc16_u16 data : u16 (_crc16_modbus data).
Proof.
  unfold _crc16_modbus.
  assert (H : u16 (fold_left crc_byte data 0xFFFF))
    by (apply fold_crc_byte_u16; unfold u16; lia).
  rewrite mask_u16 by exact H. exact H.
Qed.

(** C2: on every byte sequence [_crc16_modbus] computes the reference
    CRC-16/Modbus: a 16-bit register started at 0xFFFF, each byte
    taken in by exclusive or and followed by eight right shifts, with
    0xA001 folded in when the bit shifted out was set. The result is a
    16-bit value and, [_crc16_modbus] being a function, depends on the
    bytes alone. *)
Theorem crc16_modbus_reference (data : list byte) :
  _crc16_modbus data = Reference.checksum16 data /\
  0 <= _crc16_modbus data < 65536.
Proof.
  split; [|apply crc16_u16].
  unfold _crc16_modbus, Reference.checksum16, Reference.init.
  assert (H : u16 0xFFFF) by (unfold u16; lia).
  rewrite mask_u16 by (apply fold_crc_byte_u16, H).
  apply fold_crc_byte_absorb, H.
Qed.

End Checksum.
(** ** Binary64 arithmetic stays finite on bounded operands

    The bounds below are on the number of binary digits before the
    point: enough to show that the products and differences the worker
    computes never overflow, so that [int(...)] and [float(...)] return. *)

Section Binary64.

Lemma digits2_pos_size p : digits2_pos p = Pos.size p.
Proof. induction p; simpl; congruence. Qed.

Lemma Zdigits2_log2 p : Zpos (digits2_pos p) = Z.log2 (Zpos p) + 1.
Proof.
  rewrite digits2_pos_size. destruct p; simpl; try reflexivity; lia.
Qed.

Lemma Zdigits2_nonneg z : 0 <= Zdigits2 z.
Proof. destruct z; simpl; lia. Qed.

Lemma Zdigits2_pos_spec z : 0 < z -> Zdigits2 z = Z.log2 z + 1.
Proof. destruct z; try lia. intros _. apply Zdigits2_log2. Qed.

Lemma Zdigits2_le a b : 0 <= a <= b -> Zdigits2 a <= Zdigits2 b.
Proof.
  intros [Ha Hab]. destruct (Z.eq_dec a 0) as [->|]; [apply Zdigits2_nonneg|].
  rewrite !Zdigits2_pos_spec by lia.
  pose proof (Z.log2_le_mono a b Hab). lia.
Qed.

Lemma Zdigits2_double a : 0 < a -> Zdigits2 (2 * a) = Zdigits2 a + 1.
Proof.
  intros H. rewrite !Zdigits2_pos_spec by lia. rewrite Z.log2_double by lia. lia.
Qed.

Lemma Zdigits2_succ a : 0 <= a -> Zdigits2 (a + 1) <= Zdigits2 a + 1.
Proof.
  intros H. destruct (Z.eq_dec a 0) as [->|]; [simpl; lia|].
  transitivity (Zdigits2 (2 * a)); [apply Zdigits2_le; lia|].
  rewrite Zdigits2_double by lia. lia.
Qed.

Lemma Zdigits2_mul a b : 0 < a -> 0 < b -> Zdigits2 (a * b) <= Zdigits2 a + Zdigits2 b.
Proof.
  intros Ha Hb. rewrite !Zdigits2_pos_spec by lia.
  pose proof (Z.log2_mul_above a b). lia.
Qed.

Lemma Zdigits2_add a b : 0 <= a -> 0 <= b ->
  Zdigits2 (a + b) <= Z.max (Zdigits2 a) (Zdigits2 b) + 1.
Proof.
  intros Ha Hb.
  destruct (Z.eq_dec (Z.max a b) 0) as [H0|H0].
  { replace a with 0 by lia. replace b with 0 by lia. simpl. lia. }
  transitivity (Zdigits2 (2 * Z.max a b)); [apply Zdigits2_le; lia|].
  rewrite Zdigits2_double by lia.
  destruct (Z.max_spec a b) as [[_ ->]|[_ ->]]; lia.
Qed.

Lemma Zdigits2_iter_xO m d :
  Zpos (digits2_pos (Pos.iter xO m d)) = Zpos (digits2_pos m) + Zpos d.
Proof.
  induction d using Pos.peano_ind.
  - simpl. lia.
  - rewrite Pos.iter_succ. simpl digits2_pos. lia.
Qed.


Lemma mag_mono B B' x : B <= B' -> mag B x -> mag B' x.
Proof. destruct x; simpl; auto; lia. Qed.


Lemma shr_dig_trans j k r1 r2 r3 :
  0 <= j -> 0 <= k ->
  shr_dig j r1 r2 -> shr_dig k r2 r3 -> shr_dig (j + k) r1 r3.
Proof.
  unfold shr_dig. intros Hj Hk H12 H23 H1.
  destruct (H12 H1) as [H2 E2]. destruct (H23 H2) as [H3 E3].
  split; [exact H3|]. rewrite E3, E2. lia.
Qed.

Lemma shr_1_dig r : shr_dig 1 r (shr_1 r).
Proof.
  unfold shr_dig. destruct r as [m rb sb]. simpl shr_m at 1. intros Hm.
  destruct m as [|[p|p|]|p]; cbn [shr_1 shr_m Zdigits2 digits2_pos]; lia.
Qed.

Lemma iter_pos_shr_dig p : forall r, shr_dig (Zpos p) r (SpecFloat.iter_pos shr_1 p r).
Proof.
  induction p as [p IH|p IH|]; intros r; cbn [SpecFloat.iter_pos].
  - replace (Zpos p~1) with ((1 + Zpos p) + Zpos p) by lia.
    eapply shr_dig_trans; [lia|lia| |apply IH].
    eapply shr_dig_trans; [lia|lia|apply shr_1_dig|apply IH].
  - replace (Zpos p~0) with (Zpos p + Zpos p) by lia.
    eapply shr_dig_trans; [lia|lia|apply IH|apply IH].
  - apply shr_1_dig.
Qed.

Lemma shr_m_of_loc m l : shr_m (shr_record_of_loc m l) = m.
Proof. destruct l as [|[]]; reflexivity. Qed.

Lemma shr_fexp_bound m e l r' e' :
  0 <= m ->
  shr_fexp prec emax m e l = (r', e') ->
  0 <= shr_m r' /\
  e' = Z.max e (fexp prec emax (Zdigits2 m + e)) /\
  Zdigits2 (shr_m r') + e' <= Z.max (Zdigits2 m + e) e'.
Proof.
  intros Hm. unfold shr_fexp, shr.
  destruct (fexp prec emax (Zdigits2 m + e) - e) as [|p|p] eqn:En;
    intros [= <- <-]; rewrite ?shr_m_of_loc.
  - repeat split; lia.
  - destruct (iter_pos_shr_dig p (shr_record_of_loc m l)) as [H0 Hd];
      [rewrite shr_m_of_loc; exact Hm|].
    rewrite shr_m_of_loc in Hd.
    repeat split; [exact H0|lia|]. rewrite Hd. lia.
  - repeat split; lia.
Qed.

Lemma round_nearest_even_cases m l :
  round_nearest_even m l = m \/ round_nearest_even m l = m + 1.
Proof.
  destruct l as [|[]]; simpl; auto. destruct (Z.even m); auto.
Qed.

Lemma fexp_eq e : fexp prec emax e = Z.max (e - 53) (-1074).
Proof. reflexivity. Qed.

Lemma binary_round_aux_mag B sx mx ex lx :
  0 <= mx -> ex <= 971 -> Zdigits2 mx + ex <= B -> B <= 1023 ->
  mag (Z.max (B + 1) (-1073)) (binary_round_aux prec emax sx mx ex lx).
Proof.
  intros Hm He Hd HB. unfold binary_round_aux.
  destruct (shr_fexp prec emax mx ex lx) as [r1 e1] eqn:E1.
  destruct (shr_fexp_bound _ _ _ _ _ Hm E1) as (H1 & He1 & Hd1).
  set (m1 := round_nearest_even (shr_m r1) (loc_of_shr_record r1)) in *.
  assert (Hm1 : 0 <= m1 /\ Zdigits2 m1 <= Zdigits2 (shr_m r1) + 1).
  { subst m1. destruct (round_nearest_even_cases (shr_m r1) (loc_of_shr_record r1)) as [->| ->].
    - split; lia.
    - split; [lia|]. apply Zdigits2_succ, H1. }
  destruct Hm1 as [Hm1 Hdm1].
  destruct (shr_fexp prec emax m1 e1 loc_Exact) as [r2 e2] eqn:E2.
  destruct (shr_fexp_bound _ _ _ _ _ Hm1 E2) as (H2 & He2 & Hd2).
  rewrite fexp_eq in He1, He2.
  pose proof (Zdigits2_nonneg mx).
  destruct (shr_m r2) as [|m|m] eqn:Em2.
  - exact I.
  - replace (e2 <=? emax - prec) with true
      by (symmetry; apply Z.leb_le; change (emax - prec) with 971; lia).
    cbn [mag]. change (Z.pos (digits2_pos m)) with (Zdigits2 (Z.pos m)). lia.
  - lia.
Qed.

Lemma shl_align_digits mx ex ex' :
  Zpos (digits2_pos (fst (shl_align mx ex ex'))) + snd (shl_align mx ex ex')
  = Zpos (digits2_pos mx) + ex /\
  snd (shl_align mx ex ex') = Z.min ex ex'.
Proof.
  unfold shl_align. destruct (ex' - ex) as [|d|d] eqn:E; cbn [fst snd].
  - lia.
  - lia.
  - rewrite Zdigits2_iter_xO. lia.
Qed.

Lemma binary_round_mag B sx mx ex :
  Zpos (digits2_pos mx) + ex <= B -> B <= 1023 ->
  mag (Z.max (B + 1) (-1073)) (binary_round prec emax sx mx ex).
Proof.
  intros Hd HB. unfold binary_round.
  pose proof (shl_align_digits mx ex (fexp prec emax (Zpos (digits2_pos mx) + ex))) as [Hs He].
  destruct (shl_align mx ex _) as [mz ez]. cbn [fst snd] in Hs, He.
  rewrite fexp_eq in He.
  apply binary_round_aux_mag; cbn [Zdigits2]; lia.
Qed.

Lemma binary_normalize_mag B m e sz :
  Zdigits2 m + e <= B -> B <= 1023 ->
  mag (Z.max (B + 1) (-1073)) (binary_normalize prec emax m e sz).
Proof.
  intros Hd HB. destruct m; cbn [binary_normalize Zdigits2] in *.
  - exact I.
  - apply binary_round_mag; assumption.
  - apply binary_round_mag; assumption.
Qed.

Lemma SFmul_mag Bx By x y :
  mag Bx x -> mag By y -> Bx + By <= 973 ->
  mag (Z.max (Bx + By + 1) (-1073)) (SFmul prec emax x y).
Proof.
  destruct x as [sx|sx| |sx mx ex], y as [sy|sy| |sy my ey];
    cbn [mag SFmul]; try tauto.
  intros Hx Hy HB.
  pose proof (Zdigits2_mul (Zpos mx) (Zpos my) eq_refl eq_refl) as Hm.
  change (Z.pos mx * Z.pos my) with (Z.pos (mx * my)) in Hm.
  cbn [Zdigits2] in Hm.
  apply binary_round_aux_mag; cbn [Zdigits2]; lia.
Qed.

Lemma Zdigits2_abs z : Zdigits2 (Z.abs z) = Zdigits2 z.
Proof. destruct z; reflexivity. Qed.

Lemma Zdigits2_signed_sum sx sy a b :
  0 < a -> 0 < b ->
  Zdigits2 (cond_Zopp sx a - cond_Zopp sy b) <= Z.max (Zdigits2 a) (Zdigits2 b) + 1.
Proof.
  intros Ha Hb. rewrite <- Zdigits2_abs.
  transitivity (Zdigits2 (a + b)); [|apply Zdigits2_add; lia].
  apply Zdigits2_le. destruct sx, sy; cbn [cond_Zopp]; lia.
Qed.

Lemma SFsub_mag Bx By x y :
  mag Bx x -> mag By y -> Bx <= 1022 -> By <= 1022 ->
  mag (Z.max (Z.max Bx By + 2) (-1073)) (SFsub prec emax x y).
Proof.
  destruct x as [sx|sx| |sx mx ex], y as [sy|sy| |sy my ey];
    cbn [mag SFsub]; try tauto.
  - intros _ _ _ _. destruct sx, sy; exact I.
  - intros; lia.
  - intros; lia.
  - intros Hx Hy HBx HBy.
    pose proof (shl_align_digits mx ex (Z.min ex ey)) as [Hax Hex].
    pose proof (shl_align_digits my ey (Z.min ex ey)) as [Hay Hey].
    destruct (shl_align mx ex (Z.min ex ey)) as [mx' ex'].
    destruct (shl_align my ey (Z.min ex ey)) as [my' ey'].
    cbn [fst snd] in *.
    pose proof (Zdigits2_signed_sum sx sy (Zpos mx') (Zpos my') eq_refl eq_refl) as Hs.
    cbn [Zdigits2] in Hs.
    change (IntDef.Z.min ex ey) with (Z.min ex ey).
    eapply mag_mono; [|apply (binary_normalize_mag (Z.max Bx By + 1))]; lia.
Qed.

Lemma prim_one : Prim2SF 1 = S754_finite false 4503599627370496 (-52).
Proof. vm_compute. reflexivity. Qed.

Lemma prim_zero : Prim2SF 0 = S754_zero false.
Proof. vm_compute. reflexivity. Qed.

Lemma unit_draw_mag (r : float) :
  (0 <=? r)%float = true -> (r <? 1)%float = true -> mag 0 (Prim2SF r).
Proof.
  rewrite FloatAxioms.leb_spec, FloatAxioms.ltb_spec, prim_one, prim_zero.
  pose proof (Prim2SF_valid r) as Hv.
  destruct (Prim2SF r) as [s|s| |s m e]; cbn [mag]; try exact (fun _ _ => I).
  - unfold SFleb, SFltb. cbn [SFcompare]. destruct s; discriminate.
  - unfold SFleb. cbn [SFcompare]. discriminate.
  - unfold SFleb, SFltb. cbn [SFcompare].
    destruct s; [discriminate|]. intros _.
    cbn [valid_binary] in Hv. unfold bounded, canonical_mantissa in Hv.
    apply andb_prop in Hv as [Hc _]. apply Z.eqb_eq in Hc.
    rewrite fexp_eq in Hc.
    destruct (Z.compare_spec e (-52)) as [->|Hlt|Hgt]; try discriminate.
    + rewrite Pos.compare_cont_spec. cbn [Pos.switch_Eq].
      destruct (Pos.compare_spec m 4503599627370496) as [|Hm|]; try discriminate.
      intros _. rewrite Zdigits2_log2.
      assert (Hl : Z.log2 (Zpos m) < 52)
        by exact (proj1 (Z.log2_lt_pow2 (Zpos m) 52 eq_refl) Hm).
      clear Hm. lia.
    + intros _. lia.
Qed.

(** [int(f)] returns on every finite [f]. *)
Lemma int_of_float_mag B f : mag B (Prim2SF f) -> exists z, int_of_float f = Ok z.
Proof.
  unfold int_of_float. destruct (Prim2SF f); cbn [mag]; intros H;
    try contradiction; eauto.
Qed.

(** [c1 - c2 * r] is finite when [c1], [c2] and [r] are of moderate size. *)
Lemma noise_mag B1 B2 B c1 c2 r :
  mag B1 (Prim2SF c1) -> mag B2 (Prim2SF c2) -> mag B (Prim2SF r) ->
  B1 <= 1022 -> B2 + B <= 973 ->
  mag 1024 (Prim2SF (noise c1 c2 r)).
Proof.
  intros H1 H2 Hr HB1 HB2. unfold noise.
  rewrite FloatAxioms.sub_spec, FloatAxioms.mul_spec.
  eapply mag_mono; [|apply (SFsub_mag B1 (Z.max (B2 + B + 1) (-1073)))];
    [lia|exact H1|apply SFmul_mag; assumption|lia|lia].
Qed.

(** [float(z)] returns on every integer of moderate size. *)
Lemma float_of_int_ok z :
  Zdigits2 z <= 1023 ->
  float_of_int z = Ok (SF2Prim (binary_normalize prec emax z 0 false)).
Proof.
  intros H. unfold float_of_int.
  pose proof (binary_normalize_mag 1023 z 0 false) as Hm.
  destruct (binary_normalize prec emax z 0 false); try reflexivity.
  exfalso. apply Hm; lia.
Qed.

Lemma Zdigits2_below n z : 0 <= n -> 0 <= z < 2 ^ n -> Zdigits2 z <= n.
Proof.
  intros Hn Hz. destruct (Z.eq_dec z 0) as [->|]; [simpl; lia|].
  rewrite Zdigits2_pos_spec by lia.
  assert (Z.log2 z < n) by (apply Z.log2_lt_pow2; lia). lia.
Qed.

(** On a 16-bit value [float(z)] is the exact conversion. *)
Lemma float_of_int_u16 z :
  u16 z -> float_of_int z = Ok (of_uint63 (Uint63.of_Z z)).
Proof.
  intros Hz.
  rewrite float_of_int_ok
    by (pose proof (Zdigits2_below 16 z ltac:(lia) Hz); lia).
  f_equal. rewrite <- (SF2Prim_Prim2SF (of_uint63 (Uint63.of_Z z))).
  rewrite of_uint63_spec, Uint63.of_Z_spec.
  rewrite Z.mod_small; [reflexivity|].
  unfold u16 in Hz. change Uint63.wB with (2 ^ 63).
  assert (2 ^ 16 < 2 ^ 63) by (apply Z.pow_lt_mono_r; lia). lia.
Qed.

End Binary64.

(** ** The frame codec *)

Section Codec.

Lemma lor_shiftl_bytes lo hi :
  0 <= lo < 256 -> 0 <= hi ->
  Z.lor lo (Z.shiftl hi 8) = lo + 256 * hi.
Proof.
  intros Hlo Hhi.
  rewrite <- Z.lxor_lor, <- Z.add_nocarry_lxor.
  - rewrite Z.shiftl_mul_pow2 by lia. change (2 ^ 8) with 256. lia.
  - apply Z.bits_inj'. intros n Hn. rewrite Z.land_spec, Z.bits_0.
    destruct (Z.lt_ge_cases n 8).
    + rewrite Z.shiftl_spec_low by lia. apply andb_false_r.
    + destruct (Z.eq_dec lo 0) as [->|]; [rewrite Z.bits_0; reflexivity|].
      rewrite (Z.bits_above_log2 lo n); [reflexivity|lia|].
      assert (Z.log2 lo < 8) by (apply Z.log2_lt_pow2; lia). lia.
  - apply Z.bits_inj'. intros n Hn. rewrite Z.land_spec, Z.bits_0.
    destruct (Z.lt_ge_cases n 8).
    + rewrite Z.shiftl_spec_low by lia. apply andb_false_r.
    + destruct (Z.eq_dec lo 0) as [->|]; [rewrite Z.bits_0; reflexivity|].
      rewrite (Z.bits_above_log2 lo n); [reflexivity|lia|].
      assert (Z.log2 lo < 8) by (apply Z.log2_lt_pow2; lia). lia.
Qed.

Lemma shiftl_lor_bytes hi lo :
  0 <= hi -> 0 <= lo < 256 ->
  Z.lor (Z.shiftl hi 8) lo = 256 * hi + lo.
Proof.
  intros Hhi Hlo. rewrite Z.lor_comm, lor_shiftl_bytes by lia. lia.
Qed.

(** Indexing a sequence written out in full, by evaluation. *)
Ltac run_index T :=
  repeat match goal with
         | |- context [@py_index T ?s ?i] =>
             let r := eval cbv in (@py_index T s i) in
             change (@py_index T s i) with r;
             cbn [mbind result_bind mret result_ret]
         end.

Lemma register_u16 hi lo : u16 (256 * byte_val hi + byte_val lo).
Proof.
  pose proof (byte_val_range hi). pose proof (byte_val_range lo).
  unfold u16. change (2 ^ 16) with 65536. lia.
Qed.

Lemma tenths_truediv r :
  u16 r -> float_truediv (Int r) (Float 10.0) = Ok (tenths r).
Proof.
  intros H. unfold float_truediv, to_float.
  rewrite float_of_int_u16 by exact H. reflexivity.
Qed.

(** [_parse_frame] on a frame of the right length, its indexing done. *)
Lemma parse_frame_19 (frame : list byte) :
  length frame = 19%nat ->
  _parse_frame frame =
    if negb (trailing_crc frame =? _crc16_modbus (firstn 17 frame))
    then Raise (ChecksumError (trailing_crc frame)
                              (_crc16_modbus (firstn 17 frame)))
    else if negb (byte_at frame 1 =? 3)
    then Raise (FunctionCodeError (byte_at frame 1))
    else if negb (byte_at frame 2 =? 14)
    then Raise (ByteCountError (byte_at frame 2))
    else Ok (decoded frame).
Proof.
  intros H. do 19 (destruct frame as [|? frame]; [discriminate|]).
  destruct frame; [clear H|discriminate].
  unfold _parse_frame, parse_regs, trailing_crc, decoded, register, byte_at.
  cbn [length Nat.eqb negb py_drop_last Nat.sub firstn nth Nat.add Nat.mul
       mapM].
  run_index byte.
  rewrite !lor_shiftl_bytes, !shiftl_lor_bytes
    by (try apply byte_val_range; apply byte_val_range).
  repeat match goal with
         | |- context [256 * byte_val ?h + byte_val ?l] =>
             let r := fresh "r" in
             pose proof (register_u16 h l);
             set (r := 256 * byte_val h + byte_val l) in *
         end.
  cbn [mbind result_bind mret result_ret].
  repeat first
    [ progress run_index Z
    | rewrite tenths_truediv by assumption;
      cbn [mbind result_bind mret result_ret] ].
  reflexivity.
Qed.

(** C1: [_parse_frame] checks length, checksum, function code and byte
    count in this order, and each stage fails with an error of its own.
    A frame whose length is not 19 fails with [FrameLengthError] whatever
    it holds; a 19-byte frame whose last two bytes, low byte first,
    differ from the checksum of the first 17 fails with [ChecksumError]
    whatever its function code and byte count are; past the checksum a
    second byte other than 0x03 fails with [FunctionCodeError]; past
    that a third byte other than 14 fails with [ByteCountError]. The
    four errors differ whatever values they report. *)
Theorem parse_frame_validation_order (frame : list byte) :
  (length frame <> 19%nat ->
   _parse_frame frame = Raise (FrameLengthError (length frame))) /\
  (length frame = 19%nat ->
   trailing_crc frame <> _crc16_modbus (firstn 17 frame) ->
   _parse_frame frame =
     Raise (ChecksumError (trailing_crc frame)
                          (_crc16_modbus (firstn 17 frame)))) /\
  (length frame = 19%nat ->
   trailing_crc frame = _crc16_modbus (firstn 17 frame) ->
   byte_at frame 1 <> 0x03 ->
   _parse_frame frame = Raise (FunctionCodeError (byte_at frame 1))) /\
  (length frame = 19%nat ->
   trailing_crc frame = _crc16_modbus (firstn 17 frame) ->
   byte_at frame 1 = 0x03 ->
   byte_at frame 2 <> 14 ->
   _parse_frame frame = Raise (ByteCountError (byte_at frame 2))) /\
  (forall n a b c d,
     FrameLengthError n <> ChecksumError a b /\
     FrameLengthError n <> FunctionCodeError c /\
     FrameLengthError n <> ByteCountError d /\
     ChecksumError a b <> FunctionCodeError c /\
     ChecksumError a b <> ByteCountError d /\
     FunctionCodeError c <> ByteCountError d).
Proof.
  repeat apply conj.
  - intros Hlen. unfold _parse_frame.
    destruct (Nat.eqb_spec (length frame) 19) as [E|_]; [contradiction|].
    reflexivity.
  - intros Hlen Hcrc. rewrite parse_frame_19 by exact Hlen.
    destruct (Z.eqb_spec (trailing_crc frame) (_crc16_modbus (firstn 17 frame)));
      [contradiction|reflexivity].
  - intros Hlen Hcrc Hfc. rewrite parse_frame_19 by exact Hlen.
    rewrite Hcrc, Z.eqb_refl. cbn [negb].
    destruct (Z.eqb_spec (byte_at frame 1) 3); [contradiction|reflexivity].
  - intros Hlen Hcrc Hfc Hbc. rewrite parse_frame_19 by exact Hlen.
    rewrite Hcrc, Hfc, Z.eqb_refl. cbn [negb Z.eqb Pos.eqb].
    destruct (Z.eqb_spec (byte_at frame 2) 14); [contradiction|reflexivity].
  - intros n a b c d. repeat apply conj; discriminate.
Qed.

(** What [parse_frame_validation_order] says of the lengths 0, 18 and 20,
    of a frame of zeros (wrong in checksum, function code and byte count
    at once), and of frames wrong in function code or byte count only. *)
Lemma parse_frame_validation_order_witness :
  _parse_frame [] = Raise (FrameLengthError 0) /\
  _parse_frame (zeros 18) = Raise (FrameLengthError 18) /\
  _parse_frame (zeros 20) = Raise (FrameLengthError 20) /\
  _parse_frame (zeros 19) = Raise (ChecksumError 0 0x7070) /\
  _parse_frame wrong_function = Raise (FunctionCodeError 4) /\
  _parse_frame wrong_count = Raise (ByteCountError 13).
Proof.
  repeat apply conj.
  - apply (proj1 (parse_frame_validation_order [])). discriminate.
  - apply (proj1 (parse_frame_validation_order (zeros 18))). discriminate.
  - apply (proj1 (parse_frame_validation_order (zeros 20))). discriminate.
  - etransitivity;
      [apply (proj1 (proj2 (parse_frame_validation_order (zeros 19))))|].
    + reflexivity.
    + vm_compute. discriminate.
    + vm_compute. reflexivity.
  - etransitivity;
      [apply (proj1 (proj2 (proj2
                (parse_frame_validation_order wrong_function))))|].
    + reflexivity.
    + vm_compute. reflexivity.
    + vm_compute. discriminate.
    + vm_compute. reflexivity.
  - etransitivity;
      [apply (proj1 (proj2 (proj2 (proj2
                (parse_frame_validation_order wrong_count)))))|].
    + reflexivity.
    + vm_compute. reflexivity.
    + vm_compute. reflexivity.
    + vm_compute. discriminate.
    + vm_compute. reflexivity.
Defined.

(** C3: the query frame is 8 bytes: address 0x01, function code 0x03,
    start register 0x0000 and register count 0x0007 with the high byte
    first, then the checksum of these six bytes with the low byte first,
    as [_crc16_modbus] computes it. *)
Theorem query_frame_layout :
  length QUERY_FRAME = 8%nat /\
  byte_at QUERY_FRAME 0 = 0x01 /\
  byte_at QUERY_FRAME 1 = 0x03 /\
  256 * byte_at QUERY_FRAME 2 + byte_at QUERY_FRAME 3 = 0x0000 /\
  256 * byte_at QUERY_FRAME 4 + byte_at QUERY_FRAME 5 = 0x0007 /\
  byte_at QUERY_FRAME 6 + 256 * byte_at QUERY_FRAME 7
  = _crc16_modbus (firstn 6 QUERY_FRAME) /\
  QUERY_FRAME = append_crc (firstn 6 QUERY_FRAME).
Proof.
  repeat apply conj; vm_compute; reflexivity.
Qed.

Lemma tenths_example :
  tenths 550 = Float 55.0 /\ tenths 350 = Float 35.0 /\ tenths 65 = Float 6.5.
Proof. repeat apply conj; vm_compute; reflexivity. Qed.

(** No key of a decoded reading is ["timestamp"]. *)
Lemma decoded_no_timestamp frame : decoded frame !! "timestamp" = None.
Proof.
  unfold decoded. rewrite !lookup_insert_ne by discriminate.
  apply lookup_empty.
Qed.

Lemma decoded_sensor_id frame :
  decoded frame !! "sensor_id" = Some (Num (Int (byte_at frame 0))).
Proof.
  unfold decoded. rewrite !lookup_insert_ne by discriminate.
  apply lookup_insert_eq.
Qed.

(** C4: a 19-byte frame that passes the four checks decodes to the
    reading whose [sensor_id] is byte 0 and whose fields are the seven
    16-bit registers of bytes 3 to 16, high byte first: humidity,
    temperature and pH are registers 0, 1 and 3 divided by 10, and
    conductivity, nitrogen, phosphorus and potassium are registers 2, 4,
    5 and 6 as they are. The reading has no ["timestamp"]. When the
    registers are 550, 350, 400, 65, 20, 15 and 30 the reading is
    humidity 55.0, temperature 35.0, conductivity 400, pH 6.5, nitrogen
    20, phosphorus 15 and potassium 30. *)
Theorem parse_frame_reading (frame : list byte) :
  length frame = 19%nat ->
  trailing_crc frame = _crc16_modbus (firstn 17 frame) ->
  byte_at frame 1 = 0x03 ->
  byte_at frame 2 = 14 ->
  _parse_frame frame = Ok (decoded frame) /\
  decoded frame !! "timestamp" = None /\
  (map (register frame) (seq 0 7) = [550; 350; 400; 65; 20; 15; 30] ->
   decoded frame =
     <["potassium" := Num (Int 30)]>
     (<["phosphorus" := Num (Int 15)]>
     (<["nitrogen" := Num (Int 20)]>
     (<["ph" := Num (Float 6.5)]>
     (<["conductivity" := Num (Int 400)]>
     (<["temperature" := Num (Float 35.0)]>
     (<["humidity" := Num (Float 55.0)]>
     (<["sensor_id" := Num (Int (byte_at frame 0))]> ∅)))))))).
Proof.
  intros Hlen Hcrc Hfc Hbc. repeat apply conj.
  - rewrite parse_frame_19 by exact Hlen.
    rewrite Hcrc, Hfc, Hbc, Z.eqb_refl. reflexivity.
  - apply decoded_no_timestamp.
  - cbn [map seq]. intros [= E0 E1 E2 E3 E4 E5 E6].
    destruct tenths_example as (T0 & T1 & T3).
    unfold decoded. rewrite E0, E1, E2, E3, E4, E5, E6, T0, T1, T3.
    reflexivity.
Qed.

(** The example response decodes as [parse_frame_reading] says. *)
Lemma parse_frame_reading_witness :
  _parse_frame sample_response =
    Ok (<["potassium" := Num (Int 30)]>
       (<["phosphorus" := Num (Int 15)]>
       (<["nitrogen" := Num (Int 20)]>
       (<["ph" := Num (Float 6.5)]>
       (<["conductivity" := Num (Int 400)]>
       (<["temperature" := Num (Float 35.0)]>
       (<["humidity" := Num (Float 55.0)]>
       (<["sensor_id" := Num (Int 1)]> ∅)))))))) /\
  decoded sample_response !! "timestamp" = None.
Proof.
  assert (H : length sample_response = 19%nat /\
              trailing_crc sample_response
              = _crc16_modbus (firstn 17 sample_response) /\
              byte_at sample_response 1 = 0x03 /\
              byte_at sample_response 2 = 14)
    by (repeat apply conj; vm_compute; reflexivity).
  destruct H as (Hlen & Hcrc & Hfc & Hbc).
  destruct (parse_frame_reading sample_response Hlen Hcrc Hfc Hbc)
    as (Hp & Ht & Hv).
  split; [|exact Ht].
  rewrite Hp, Hv by (vm_compute; reflexivity). reflexivity.
Defined.

Lemma byte_val_of_Z z : byte_val (byte_of_Z z) = z mod 256.
Proof.
  unfold byte_of_Z, byte_val.
  assert (Hm : 0 <= z mod 256 < 256) by (apply Z.mod_pos_bound; lia).
  destruct (Byte.of_N (Z.to_N (z mod 256))) as [b|] eqn:E.
  - apply Byte.to_of_N in E. rewrite E. apply Z2N.id. lia.
  - apply Byte.of_N_None_iff in E. lia.
Qed.

(** A 17-byte message with its checksum appended is a frame whose
    checksum stage passes. *)
Lemma append_crc_valid body :
  length body = 17%nat ->
  length (append_crc body) = 19%nat /\
  firstn 17 (append_crc body) = body /\
  trailing_crc (append_crc body) = _crc16_modbus body /\
  (forall i, (i < 17)%nat -> byte_at (append_crc body) i = byte_at body i).
Proof.
  intros H. pose proof (crc16_u16 body) as Hu. unfold u16 in Hu.
  change (2 ^ 16) with 65536 in Hu.
  unfold append_crc, trailing_crc, byte_at.
  repeat apply conj.
  - rewrite length_app, H. reflexivity.
  - rewrite <- H. rewrite firstn_app, Nat.sub_diag, firstn_all.
    cbn [firstn]. apply app_nil_r.
  - rewrite !app_nth2 by lia. rewrite H. cbn [Nat.sub nth].
    rewrite !byte_val_of_Z.
    rewrite (Z.mod_small (_ / 256)); [|split;
      [apply Z.div_pos; lia|apply Z.div_lt_upper_bound; lia]].
    pose proof (Z.div_mod (_crc16_modbus body) 256). lia.
  - intros i Hi. rewrite app_nth1 by lia. reflexivity.
Qed.

(** C10: the decoder never looks at the address. Every 19-byte frame
    that passes the checksum, function-code and byte-count checks
    decodes, and its [sensor_id] is byte 0 as it came; and there are
    such frames for each of the 256 values of that byte, whatever the 14
    payload bytes, although the query is always sent to address 1. *)
Theorem parse_frame_ignores_address :
  (forall frame : list byte,
     length frame = 19%nat ->
     trailing_crc frame = _crc16_modbus (firstn 17 frame) ->
     byte_at frame 1 = 0x03 ->
     byte_at frame 2 = 14 ->
     exists d, _parse_frame frame = Ok d /\
               d !! "sensor_id" = Some (Num (Int (byte_at frame 0)))) /\
  (forall (address : byte) (payload : list byte),
     length payload = 14%nat ->
     exists d,
       _parse_frame (append_crc (address :: x03 :: x0e :: payload)) = Ok d /\
       d !! "sensor_id" = Some (Num (Int (byte_val address)))) /\
  byte_at QUERY_FRAME 0 = 1.
Proof.
  assert (Hall : forall frame : list byte,
     length frame = 19%nat ->
     trailing_crc frame = _crc16_modbus (firstn 17 frame) ->
     byte_at frame 1 = 0x03 ->
     byte_at frame 2 = 14 ->
     exists d, _parse_frame frame = Ok d /\
               d !! "sensor_id" = Some (Num (Int (byte_at frame 0)))).
  { intros frame Hlen Hcrc Hfc Hbc. exists (decoded frame). split.
    - rewrite parse_frame_19 by exact Hlen.
      rewrite Hcrc, Hfc, Hbc, Z.eqb_refl. reflexivity.
    - apply decoded_sensor_id. }
  repeat apply conj.
  - exact Hall.
  - intros address payload Hp.
    set (body := address :: x03 :: x0e :: payload).
    assert (Hb : length body = 17%nat) by (cbn [body length]; lia).
    destruct (append_crc_valid body Hb) as (Hlen & Hfst & Hcrc & Hat).
    destruct (Hall (append_crc body)) as (d & Hd & Hs).
    + exact Hlen.
    + rewrite Hfst. exact Hcrc.
    + rewrite Hat by lia. reflexivity.
    + rewrite Hat by lia. reflexivity.
    + exists d. split; [exact Hd|]. rewrite Hs, Hat by lia. reflexivity.
  - reflexivity.
Qed.

(** A response from address 255 decodes, and says so. *)
Lemma parse_frame_ignores_address_witness :
  exists d,
    _parse_frame (append_crc (xff :: x03 :: x0e :: zeros 14)) = Ok d /\
    d !! "sensor_id" = Some (Num (Int 255)).
Proof.
  exact (proj1 (proj2 parse_frame_ignores_address) xff (zeros 14) eq_refl).
Defined.

End Codec.
(** ** The history buffer *)

Section History.

Context {A : Type}.
Implicit Types (d xs : list A) (x : A) (cap : nat).

Lemma deque_append_drop cap d x :
  (length d <= cap)%nat ->
  deque_append cap d x = drop (length (d ++ [x]) - cap) (d ++ [x]).
Proof.
  intros H. unfold deque_append. rewrite length_app. cbn [length].
  destruct (Nat.ltb_spec cap (length d + 1)) as [Hlt|Hge].
  - replace (length d + 1 - cap)%nat with 1%nat by lia.
    destruct (d ++ [x]); reflexivity.
  - replace (length d + 1 - cap)%nat with 0%nat by lia. reflexivity.
Qed.

Lemma deque_append_length cap d x :
  (length d <= cap)%nat -> (length (deque_append cap d x) <= cap)%nat.
Proof.
  intros H. rewrite deque_append_drop by exact H.
  rewrite length_drop, length_app. cbn [length]. lia.
Qed.

Lemma deque_append_full cap d x :
  length d = cap -> cap <> 0%nat -> deque_append cap d x = tail d ++ [x].
Proof.
  intros H Hc. unfold deque_append. rewrite length_app. cbn [length].
  destruct (Nat.ltb_spec cap (length d + 1)) as [_|Hge]; [|lia].
  destruct d; [cbn [length] in H; lia|reflexivity].
Qed.

Lemma deque_append_last cap d x :
  cap <> 0%nat -> last (deque_append cap d x) = Some x.
Proof.
  intros Hc. unfold deque_append. rewrite length_app. cbn [length].
  destruct (Nat.ltb_spec cap (length d + 1)) as [Hlt|_]; [|apply last_snoc].
  destruct d as [|a d]; [cbn [length] in Hlt; lia|].
  cbn [app tail]. apply last_snoc.
Qed.

(** Appending [xs] one by one to a buffer within its bound keeps the
    last [cap] items of everything it was given. *)
Lemma deque_appends cap xs : forall d,
  (length d <= cap)%nat ->
  fold_left (deque_append cap) xs d
  = drop (length (d ++ xs) - cap) (d ++ xs).
Proof.
  induction xs as [|x xs IH]; intros d H.
  - cbn [fold_left]. rewrite app_nil_r.
    replace (length d - cap)%nat with 0%nat by lia. reflexivity.
  - cbn [fold_left]. rewrite IH by (apply deque_append_length, H).
    rewrite deque_append_drop by exact H.
    rewrite (cons_middle x d xs), app_assoc.
    set (l := d ++ [x]).
    assert (Hl : (length l <= cap + 1)%nat)
      by (subst l; rewrite length_app; cbn [length]; lia).
    clearbody l.
    rewrite <- (drop_app_le l xs (length l - cap)) by lia.
    rewrite drop_drop. f_equal.
    rewrite length_drop, !length_app. lia.
Qed.

(** With room for at least one item the buffer ends with the item
    appended last. *)
Lemma deque_appends_last cap xs d :
  cap <> 0%nat ->
  last (fold_left (deque_append cap) xs d)
  = match last xs with Some x => Some x | None => last d end.
Proof.
  intros Hc. induction xs as [|x xs _] using rev_ind; [reflexivity|].
  rewrite fold_left_app, last_snoc. cbn [fold_left].
  apply deque_append_last, Hc.
Qed.

End History.
(** ** The synthetic source *)

Section Synthetic.

Lemma clamp_within lo hi v :
  lo <= hi -> within lo hi (py_max (Int lo) (py_min (Int hi) v)).
Proof.
  intros H. unfold within, py_max, py_min.
  destruct v as [z|f]; cbn [num_lt num_le].
  - destruct (Z.ltb_spec z hi); cbn [num_lt num_le].
    + destruct (Z.ltb_spec lo z); cbn [num_le]; split; apply Z.leb_le; lia.
    + destruct (Z.ltb_spec lo hi); cbn [num_le]; split; apply Z.leb_le; lia.
  - destruct (float_cmp_int f hi) as [[]|] eqn:Ehi; cbn [num_lt num_le].
    2: destruct (float_cmp_int f lo) as [[]|] eqn:Elo; cbn [num_le];
       rewrite ?Ehi, ?Elo; split; try reflexivity; apply Z.leb_le; lia.
    all: destruct (Z.ltb_spec lo hi); cbn [num_le]; split; apply Z.leb_le; lia.
Qed.

Lemma Zdigits2_small z : -128 < z < 128 -> Zdigits2 z <= 1023.
Proof.
  intros H. rewrite <- Zdigits2_abs.
  pose proof (Zdigits2_below 7 (Z.abs z) ltac:(lia)) as Hd.
  change (2 ^ 7) with 128 in Hd. lia.
Qed.

(** A field within a small range converts to a float. *)
Lemma within_to_float lo hi v :
  within lo hi v -> -128 < lo -> hi < 128 -> exists f, to_float v = Ok f.
Proof.
  intros [Hlo Hhi] H1 H2. destruct v as [z|f]; cbn [to_float]; [|eauto].
  cbn [num_le] in Hlo, Hhi. apply Z.leb_le in Hlo, Hhi.
  rewrite float_of_int_ok by (apply Zdigits2_small; lia). eauto.
Qed.

Lemma num_add_float v fv f :
  to_float v = Ok fv -> num_add v (Float f) = Ok (Float (fv + f)%float).
Proof.
  intros H. destruct v; cbn [num_add to_float] in *; rewrite H; reflexivity.
Qed.

Lemma noise_constants :
  mag 2 (Prim2SF 2) /\ mag 3 (Prim2SF 4) /\
  mag 0 (Prim2SF 0.4) /\ mag 0 (Prim2SF 0.8).
Proof. repeat apply conj; vm_compute; discriminate. Qed.

(** [int(2 - 4 * r)] and [int(0.4 - 0.8 * r)] return on every draw. *)
Lemma int_noise_unit r :
  unit_draw r ->
  (exists z, int_noise 2 4 r = Ok z) /\
  (exists z, int_noise 0.4 0.8 r = Ok z).
Proof.
  intros [H0 H1]. pose proof (unit_draw_mag r H0 H1) as Hr.
  destruct noise_constants as (C2 & C4 & C04 & C08).
  split; unfold int_noise; eapply int_of_float_mag.
  - apply (noise_mag 2 3 0); auto; lia.
  - apply (noise_mag 0 0 0); auto; lia.
Qed.

(** One call of the source on draws in [0, 1): it returns, and this is
    the state it leaves. *)
Lemma sim_step_unit rnd s :
  (forall k, unit_draw (rnd k)) -> in_range s ->
  exists h t p dc dn dp dk,
    sim_step rnd s =
      ({| humidity := py_max (Int 0) (py_min (Int 100) (Float h));
          temperature := py_max (Int (-20)) (py_min (Int 60) (Float t));
          conductivity := Z.max 0 (conductivity s + dc);
          ph := py_max (Int 0) (py_min (Int 14) (Float p));
          nitrogen := Z.max 0 (nitrogen s + dn);
          phosphorus := Z.max 0 (phosphorus s + dp);
          potassium := Z.max 0 (potassium s + dk) |}, Ok tt).
Proof.
  intros Hr Hs.
  destruct (within_to_float _ _ _ (humidity_range s Hs)) as [fh Hh]; [lia..|].
  destruct (within_to_float _ _ _ (temperature_range s Hs)) as [ft Ht]; [lia..|].
  destruct (within_to_float _ _ _ (ph_range s Hs)) as [fp Hp]; [lia..|].
  destruct (proj1 (int_noise_unit _ (Hr 3%nat))) as [dc Hc].
  destruct (proj2 (int_noise_unit _ (Hr 4%nat))) as [dn Hn].
  destruct (proj2 (int_noise_unit _ (Hr 5%nat))) as [dp Hdp].
  destruct (proj2 (int_noise_unit _ (Hr 6%nat))) as [dk Hk].
  eexists _, _, _, dc, dn, dp, dk.
  unfold sim_step, sim_perturb, sim_clamp.
  cbn [app exec].
  rewrite (num_add_float _ _ _ Hh). cbn [mbind result_bind exec].
  cbn [set_humidity humidity temperature ph conductivity nitrogen phosphorus
       potassium].
  rewrite (num_add_float _ _ _ Ht). cbn [mbind result_bind exec].
  cbn [set_temperature humidity temperature ph conductivity nitrogen
       phosphorus potassium].
  rewrite (num_add_float _ _ _ Hp). cbn [mbind result_bind exec].
  cbn [set_ph humidity temperature ph conductivity nitrogen phosphorus
       potassium].
  rewrite Hc. cbn [mbind result_bind exec].
  cbn [set_conductivity humidity temperature ph conductivity nitrogen
       phosphorus potassium].
  rewrite Hn. cbn [mbind result_bind exec].
  cbn [set_nitrogen humidity temperature ph conductivity nitrogen phosphorus
       potassium].
  rewrite Hdp. cbn [mbind result_bind exec].
  cbn [set_phosphorus humidity temperature ph conductivity nitrogen
       phosphorus potassium].
  rewrite Hk. cbn [mbind result_bind exec].
  cbn [set_potassium set_phosphorus set_nitrogen set_conductivity set_ph
       set_temperature set_humidity humidity temperature ph conductivity
       nitrogen phosphorus potassium].
  reflexivity.
Qed.

Lemma sim_state0_in_range : in_range sim_state0.
Proof.
  split; cbn [sim_state0 humidity temperature ph conductivity nitrogen
              phosphorus potassium]; try lia; split; vm_compute; reflexivity.
Qed.

(** C8: started in range and fed draws in [0, 1), the synthetic source
    returns at every call, and after each call humidity is in [0, 100],
    temperature in [-20, 60], pH in [0, 14] and conductivity, nitrogen,
    phosphorus and potassium are at least 0, however many calls are
    made. The state the worker starts the source in is in range. *)
Theorem sim_stays_in_range (rnds : list (nat -> float)) (s : sim) :
  Forall (fun rnd => forall k, unit_draw (rnd k)) rnds ->
  in_range s ->
  in_range sim_state0 /\
  exists states,
    sim_run rnds s = Ok states /\
    length states = length rnds /\
    Forall in_range states.
Proof.
  intros Hr Hs. split; [apply sim_state0_in_range|].
  revert s Hs. induction Hr as [|rnd rnds Hrnd _ IH]; intros s Hs.
  - exists []. repeat apply conj; [reflexivity|reflexivity|constructor].
  - destruct (sim_step_unit rnd s Hrnd Hs)
      as (h & t & p & dc & dn & dp & dk & Hstep).
    cbn [sim_run]. rewrite Hstep.
    match type of Hstep with _ = (?s1, _) => set (s' := s1) in * end.
    assert (Hs' : in_range s').
    { split; cbn [s' humidity temperature ph conductivity nitrogen
                  phosphorus potassium];
        try (apply clamp_within; lia); apply Z.le_max_l. }
    destruct (IH s' Hs') as (states & Hrun & Hlen & Hall).
    exists (s' :: states). rewrite Hrun.
    repeat apply conj; [reflexivity|cbn [length]; congruence|].
    constructor; assumption.
Qed.

End Synthetic.

(** Three calls with every draw at one half, from the worker's initial
    state. *)
Lemma sim_stays_in_range_witness :
  exists states,
    sim_run (repeat (fun _ => 0.5%float) 3) sim_state0 = Ok states /\
    length states = 3%nat /\
    Forall in_range states.
Proof.
  refine (proj2 (sim_stays_in_range (repeat (fun _ => 0.5%float) 3)
                   sim_state0 _ _)).
  - repeat constructor; vm_compute; reflexivity.
  - split; cbn [sim_state0 humidity temperature ph conductivity nitrogen
                phosphorus potassium]; try lia; split; vm_compute; reflexivity.
Defined.
(** ** The acquisition loop *)

Section Worker.

Variable cfg : config.

(** What publishing does, written out. *)
Lemma publish_spec w data g l :
  publish cfg w data (g, l) =
    ((published cfg (stamped w data) g, l),
     critical_section (stamped w data) (_last_seq g + 1)
       ++ [ESleep (cycle_rest cfg)],
     Ok tt).
Proof. reflexivity. Qed.

(** Running worker code on a state: the combinators are unfolded, the
    rest is left as it stands. *)
Ltac run_worker :=
  cbv beta iota zeta delta
    [step iteration physical_cycle simulated_cycle on_exception publish
     history_append incr_last_seq store_is_simulating
     try_except emit lift sleep pass ret get update
     mbind M_bind seq_ fst snd
     set_ser set_sim_state set_history set_last_seq set_is_simulating
     ser sim_state history _last_seq _is_simulating].

(** A cycle on an open link, by its outcome. *)
Lemma step_physical w g l link :
  ser l = Some link ->
  step cfg w (g, l) =
    match physical_outcome w with
    | Ok (Some data) =>
        ((published cfg (stamped w data) g, l),
         exchange_trace w
           ++ critical_section (stamped w data) (_last_seq g + 1)
           ++ [ESleep (cycle_rest cfg)])
    | Ok None =>
        ((g, l), exchange_trace w ++ [ESleep (cycle_rest cfg)])
    | Raise _ =>
        if FALLBACK_TO_SIM cfg
        then (({| history := history g; _last_seq := _last_seq g;
                  _is_simulating := true |},
               {| ser := None; sim_state := sim_state l |}),
              exchange_trace w ++ [EClose; ESimulating true; ESleep 1])
        else ((g, l), exchange_trace w ++ [ESleep 1])
    end.
Proof.
  intros Hs. destruct l as [s st], g as [h n b]. cbn [ser] in Hs. subst s.
  unfold physical_outcome, exchange, exchange_trace, published, stamped.
  run_worker.
  destruct (reset_input_buffer w) as [[]|?], (write w) as [[]|?];
    cbn [mbind result_bind].
  all: try (destruct (FALLBACK_TO_SIM cfg), (close w) as [[]|?]; reflexivity).
  all: destruct (read w) as [resp|?]; cbn [mbind result_bind].
  all: try (destruct (FALLBACK_TO_SIM cfg), (close w) as [[]|?]; reflexivity).
  all: destruct (negb (length resp =? 19)%nat); [reflexivity|].
  all: destruct (_parse_frame resp) as [data|?]; cbn [mbind result_bind];
    [reflexivity|].
  all: destruct (FALLBACK_TO_SIM cfg), (close w) as [[]|?]; reflexivity.
Qed.

(** A synthetic cycle, by whether the source raises. *)
Lemma step_simulated w g l :
  ser l = None ->
  step cfg w (g, l) =
    let '(s', r) := sim_step (random w) (sim_state l) in
    let l' := {| ser := None; sim_state := s' |} in
    match r with
    | Ok _ =>
        ((published cfg (stamped w (sim_reading s')) g, l'),
         critical_section (stamped w (sim_reading s')) (_last_seq g + 1)
           ++ [ESleep (cycle_rest cfg)])
    | Raise _ => ((g, l'), [ESleep 1])
    end.
Proof.
  intros Hs. destruct l as [s st], g as [h n b]. cbn [ser] in Hs. subst s.
  unfold published, stamped. run_worker.
  destruct (sim_step (random w) st) as [s' [[]|?]]; reflexivity.
Qed.

(** No cycle raises: the handler of the loop catches everything and
    raises nothing itself. *)
Lemma iteration_returns w s : snd (iteration cfg w s) = Ok tt.
Proof.
  destruct s as [[h n b] [s st]]. run_worker.
  destruct s as [link|].
  - destruct (reset_input_buffer w) as [[]|?], (write w) as [[]|?],
      (read w) as [resp|?], (FALLBACK_TO_SIM cfg), (close w) as [[]|?];
      try reflexivity.
    all: destruct (negb (length resp =? 19)%nat); [reflexivity|].
    all: destruct (_parse_frame resp); reflexivity.
  - destruct (sim_step (random w) st) as [s' [[]|?]]; reflexivity.
Qed.

Lemma monitor_app m t1 t2 :
  monitor m (t1 ++ t2) = monitor m t1 ≫= fun m' => monitor m' t2.
Proof.
  revert m. induction t1 as [|e t1 IH]; intros m; [reflexivity|].
  cbn [app monitor]. destruct (monitor_step m e); [apply IH|reflexivity].
Qed.

Lemma appended_app t1 t2 : appended (t1 ++ t2) = appended t1 ++ appended t2.
Proof. apply omap_app. Qed.

Lemma monitor_quiet n tr :
  forallb quiet tr = true ->
  monitor (Unlocked, n) tr = Some (Unlocked, n) /\ appended tr = [].
Proof.
  induction tr as [|e tr IH]; [split; reflexivity|].
  cbn [forallb]. intros [He Htr]%andb_prop. destruct (IH Htr) as [IH1 IH2].
  unfold appended in *.
  destruct e; try discriminate He; cbn; rewrite ?IH1, ?IH2; split; reflexivity.
Qed.

Lemma exchange_trace_quiet w : forallb quiet (exchange_trace w) = true.
Proof. unfold exchange_trace. destruct (write w); reflexivity. Qed.

Lemma monitor_critical_section d n :
  monitor (Unlocked, n) (critical_section d (n + 1)) = Some (Unlocked, n + 1)
  /\ appended (critical_section d (n + 1)) = [d].
Proof. cbn. rewrite Z.eqb_refl. split; reflexivity. Qed.

(** The shape of a cycle: either it publishes one reading, in one
    critical section that ends its trace but for the closing sleep, or
    it leaves history and counter alone and its events are all quiet. *)
Lemma step_shape w g l :
  let '((g', l'), tr) := step cfg w (g, l) in
  (exists d pre,
     forallb quiet pre = true /\
     tr = pre ++ critical_section d (_last_seq g + 1)
              ++ [ESleep (cycle_rest cfg)] /\
     g' = published cfg d g) \/
  (forallb quiet tr = true /\
   history g' = history g /\ _last_seq g' = _last_seq g).
Proof.
  destruct (ser l) as [link|] eqn:Hs.
  - rewrite (step_physical w g l link Hs).
    pose proof (exchange_trace_quiet w) as Hq.
    destruct (physical_outcome w) as [[data|]|?].
    + left. exists (stamped w data), (exchange_trace w). auto.
    + right. rewrite forallb_app, Hq. auto.
    + destruct (FALLBACK_TO_SIM cfg); right; rewrite forallb_app, Hq; auto.
  - rewrite (step_simulated w g l Hs).
    destruct (sim_step (random w) (sim_state l)) as [s' [[]|?]].
    + left. exists (stamped w (sim_reading s')), []. auto.
    + right. auto.
Qed.

(** What a cycle does to the shared state, read off its trace. *)
Lemma step_globals w g l :
  let '((g', l'), tr) := step cfg w (g, l) in
  monitor (Unlocked, _last_seq g) tr = Some (Unlocked, _last_seq g') /\
  history g'
  = fold_left (deque_append (HISTORY_MAX cfg)) (appended tr) (history g) /\
  (forall p b, EOpen p b ∉ tr).
Proof.
  pose proof (step_shape w g l) as H.
  destruct (step cfg w (g, l)) as [[g' l'] tr].
  destruct H as [(d & pre & Hq & -> & ->)|(Hq & Hh & Hn)].
  - destruct (monitor_quiet (_last_seq g) pre Hq) as [Hm Ha].
    destruct (monitor_critical_section d (_last_seq g)) as [Hc Hd].
    repeat apply conj.
    + rewrite monitor_app, Hm. cbn [mbind option_bind].
      rewrite monitor_app, Hc. reflexivity.
    + rewrite !appended_app, Ha, Hd. reflexivity.
    + intros p b Hin. apply elem_of_app in Hin as [Hin|Hin].
      * apply list_elem_of_In, (proj1 (forallb_forall _ _) Hq) in Hin.
        discriminate Hin.
      * apply list_elem_of_In in Hin. cbn in Hin.
        intuition discriminate.
  - destruct (monitor_quiet (_last_seq g) tr Hq) as [Hm Ha].
    repeat apply conj.
    + rewrite Hm, Hn. reflexivity.
    + rewrite Ha, Hh. reflexivity.
    + intros p b Hin.
      apply list_elem_of_In, (proj1 (forallb_forall _ _) Hq) in Hin.
      discriminate Hin.
Qed.

(** What successive cycles do to the shared state, read off the trace. *)
Lemma run_globals ws : forall g l,
  let '((g', l'), tr) := run cfg ws (g, l) in
  monitor (Unlocked, _last_seq g) tr = Some (Unlocked, _last_seq g') /\
  history g'
  = fold_left (deque_append (HISTORY_MAX cfg)) (appended tr) (history g) /\
  (forall p b, EOpen p b ∉ tr).
Proof.
  induction ws as [|w ws IH]; intros g l.
  - cbn [run]. repeat apply conj; [reflexivity|reflexivity|].
    intros p b Hin. inversion Hin.
  - cbn [run]. pose proof (step_globals w g l) as H1.
    destruct (step cfg w (g, l)) as [[g1 l1] t1].
    specialize (IH g1 l1).
    destruct (run cfg ws (g1, l1)) as [[g2 l2] t2].
    destruct H1 as (Hm1 & Hh1 & Ho1), IH as (Hm2 & Hh2 & Ho2).
    repeat apply conj.
    + rewrite monitor_app, Hm1. exact Hm2.
    + rewrite appended_app, fold_left_app, <- Hh1. exact Hh2.
    + intros p b [Hin|Hin]%elem_of_app; [exact (Ho1 p b Hin)|exact (Ho2 p b Hin)].
Qed.

Lemma run_app ws1 ws2 s :
  run cfg (ws1 ++ ws2) s =
    let '(s1, t1) := run cfg ws1 s in
    let '(s2, t2) := run cfg ws2 s1 in
    (s2, t1 ++ t2).
Proof.
  revert s. induction ws1 as [|w ws1 IH]; intros s.
  - cbn [app run]. destruct (run cfg ws2 s) as [s2 t2]. reflexivity.
  - cbn [app run]. destruct (step cfg w s) as [s1 t1]. rewrite IH.
    destruct (run cfg ws1 s1) as [s1' t1'].
    destruct (run cfg ws2 s1') as [s2 t2]. rewrite app_assoc. reflexivity.
Qed.

(** Opening the link touches neither the history nor the counter. *)
Lemma connect_globals pyserial opened g l :
  let '((g', _), _, _) := connect cfg pyserial opened (g, l) in
  history g' = history g /\ _last_seq g' = _last_seq g.
Proof.
  destruct g as [h n b], l as [s st].
  destruct pyserial, opened as [link|e], (FALLBACK_TO_SIM cfg) eqn:Ef;
    unfold connect; rewrite ?Ef; cbn; split; reflexivity.
Qed.

(** The monitor's count moves with the appends it lets through. *)
Lemma monitor_counts tr : forall st n st' n',
  monitor (st, n) tr = Some (st', n') ->
  n' + pending st' = n + pending st + Z.of_nat (length (appended tr)).
Proof.
  induction tr as [|e tr IH]; intros st n st' n' H.
  - cbn in H. injection H as <- <-. cbn. lia.
  - cbn [monitor] in H.
    destruct (monitor_step (st, n) e) as [[st1 n1]|] eqn:E; [|discriminate].
    apply IH in H. unfold appended in *.
    destruct st, e; cbn in E; try discriminate E;
      try (injection E as <- <-; cbn in *; lia).
    destruct (v =? n + 1) eqn:Ev; [|discriminate].
    apply Z.eqb_eq in Ev. injection E as <- <-. cbn in *. lia.
Qed.

End Worker.

(** C5: from the empty history the module starts with, and whatever the
    cycles bring, the history never holds more than [HISTORY_MAX]
    readings: it holds the last [HISTORY_MAX] of the readings appended,
    oldest first in the order they were appended. After
    [HISTORY_MAX + k] appends these are all but the first [k], and there
    are exactly [HISTORY_MAX] of them. An append to a full buffer drops
    the oldest entry and nothing else. *)
Theorem history_keeps_last (cfg : config) (ws : list world) (g : globals)
    (l : locals) :
  history g = [] ->
  let '((g', _), tr) := run cfg ws (g, l) in
  let cap := HISTORY_MAX cfg in
  let xs := appended tr in
  (length (history g') <= cap)%nat /\
  history g' = drop (length xs - cap) xs /\
  (forall k, length xs = (cap + k)%nat ->
             history g' = drop k xs /\ length (history g') = cap) /\
  (forall (d : list reading) x,
     length d = cap -> cap <> 0%nat ->
     deque_append cap d x = tail d ++ [x]).
Proof.
  intros Hg. pose proof (run_globals cfg ws g l) as H.
  destruct (run cfg ws (g, l)) as [[g' l'] tr].
  destruct H as (_ & Hh & _). rewrite Hg in Hh.
  rewrite deque_appends in Hh by (cbn [length]; lia). cbn [app] in Hh.
  cbv zeta. repeat apply conj.
  - rewrite Hh, length_drop. lia.
  - exact Hh.
  - intros k Hk. rewrite Hh, Hk.
    replace (HISTORY_MAX cfg + k - HISTORY_MAX cfg)%nat with k by lia.
    split; [reflexivity|]. rewrite length_drop. lia.
  - intros d x Hd Hc. apply deque_append_full; assumption.
Qed.

(** With room for two readings, three synthetic cycles leave the last
    two in the history. *)
Lemma history_keeps_last_witness :
  let '((g', _), tr) :=
    run (default_config 2 true) [calm_world; calm_world; calm_world]
        (started None) in
  length (appended tr) = 3%nat /\
  length (history g') = 2%nat /\
  history g' = drop 1 (appended tr).
Proof.
  pose proof (history_keeps_last (default_config 2 true)
                [calm_world; calm_world; calm_world]
                (fst (started None)) (snd (started None)) eq_refl) as H.
  change (fst (started None), snd (started None)) with (started None) in H.
  destruct (run (default_config 2 true) [calm_world; calm_world; calm_world]
                (started None)) as [[g' l'] tr] eqn:E.
  destruct H as (_ & _ & Hk & _).
  assert (Hn : length (appended tr) = 3%nat).
  { replace tr with
      (snd (run (default_config 2 true) [calm_world; calm_world; calm_world]
                (started None))) by (rewrite E; reflexivity).
    vm_compute. reflexivity. }
  destruct (Hk 1%nat Hn) as [Hd Hl]. auto.
Defined.

(** C6: over any number of cycles, physical or synthetic, the trace
    obeys the publishing discipline: a reading is appended only with
    [_cond] held, the counter is then stored at its old value plus one
    before anyone is notified and the lock released, and the counter is
    stored nowhere else. Hence the counter ends at its initial value plus
    the number of appends, and never below where it started. Opening the
    link does not touch it either. *)
Theorem last_seq_counts_appends (cfg : config) (ws : list world)
    (g : globals) (l : locals) :
  (let '((g', _), tr) := run cfg ws (g, l) in
   monitor (Unlocked, _last_seq g) tr = Some (Unlocked, _last_seq g') /\
   _last_seq g' = _last_seq g + Z.of_nat (length (appended tr)) /\
   _last_seq g <= _last_seq g') /\
  (forall pyserial opened,
     let '((g', _), _, _) := connect cfg pyserial opened (g, l) in
     _last_seq g' = _last_seq g).
Proof.
  split.
  - pose proof (run_globals cfg ws g l) as H.
    destruct (run cfg ws (g, l)) as [[g' l'] tr].
    destruct H as (Hm & _ & _).
    pose proof (monitor_counts tr _ _ _ _ Hm) as Hc. cbn [pending] in Hc.
    repeat apply conj; [exact Hm|lia|lia].
  - intros pyserial opened.
    pose proof (connect_globals cfg pyserial opened g l) as H.
    destruct (connect cfg pyserial opened (g, l)) as [[[g' l'] tr] r].
    apply H.
Qed.

Section Recovery.

Variable cfg : config.

Lemma physical_failure_outcome w e :
  physical_failure w e -> physical_outcome w = Raise e.
Proof.
  unfold physical_failure, physical_outcome, exchange.
  intros [Hw|[(u & Hw & Hr)|(u & resp & Hw & Hr & Hl & Hp)]].
  - rewrite Hw. reflexivity.
  - rewrite Hw, Hr. reflexivity.
  - rewrite Hw, Hr. cbn [mbind result_bind]. rewrite Hl, Hp. reflexivity.
Qed.

Lemma exchange_trace_no_close w : EClose ∉ exchange_trace w.
Proof.
  unfold exchange_trace. destruct (write w); cbn [app];
    intros Hin; apply list_elem_of_In in Hin; cbn in Hin;
    intuition discriminate.
Qed.

(** Without fall-back a cycle keeps the link it has and never closes it. *)
Lemma step_keeps_link w g l link :
  FALLBACK_TO_SIM cfg = false -> ser l = Some link ->
  let '((g', l'), tr) := step cfg w (g, l) in
  ser l' = Some link /\ (EClose ∉ tr) /\ _is_simulating g' = _is_simulating g.
Proof.
  intros Hf Hs. rewrite (step_physical cfg w g l link Hs), Hf.
  pose proof (exchange_trace_no_close w) as Hx.
  destruct (physical_outcome w) as [[data|]|?]; repeat apply conj;
    try assumption; try reflexivity.
  all: intros [Hin|Hin]%elem_of_app; [exact (Hx Hin)|];
    apply list_elem_of_In in Hin; cbn in Hin; intuition discriminate.
Qed.

Lemma run_keeps_link ws : forall g l link,
  FALLBACK_TO_SIM cfg = false -> ser l = Some link ->
  let '((g', l'), tr) := run cfg ws (g, l) in
  ser l' = Some link /\ (EClose ∉ tr) /\ _is_simulating g' = _is_simulating g.
Proof.
  induction ws as [|w ws IH]; intros g l link Hf Hs.
  - cbn [run]. repeat apply conj; [exact Hs| |reflexivity].
    intros Hin. inversion Hin.
  - cbn [run]. pose proof (step_keeps_link w g l link Hf Hs) as H1.
    destruct (step cfg w (g, l)) as [[g1 l1] t1].
    destruct H1 as (Hs1 & Hc1 & Hi1).
    specialize (IH g1 l1 link Hf Hs1).
    destruct (run cfg ws (g1, l1)) as [[g2 l2] t2].
    destruct IH as (Hs2 & Hc2 & Hi2).
    repeat apply conj; [exact Hs2| |congruence].
    intros [Hin|Hin]%elem_of_app; [exact (Hc1 Hin)|exact (Hc2 Hin)].
Qed.

(** C9, as the code has it: when a cycle on the open link fails (an I/O
    error on write or read, or a full response that does not decode),
    the history and the counter are left alone and the worker sleeps 1
    second in either case. With fall-back enabled it first closes the
    link, drops it and sets the simulation flag, so that the following
    cycles are synthetic. With fall-back disabled it does not close the
    link, keeps it, and leaves the flag as it is: the following cycles
    poll the same link again, and no cycle ever opens a link. *)
Theorem physical_failure_recovery (w : world) (g : globals) (l : locals)
    (link : Serial) (e : exn) :
  ser l = Some link ->
  physical_failure w e ->
  step cfg w (g, l) =
    (if FALLBACK_TO_SIM cfg
     then (({| history := history g; _last_seq := _last_seq g;
               _is_simulating := true |},
            {| ser := None; sim_state := sim_state l |}),
           exchange_trace w ++ [EClose; ESimulating true; ESleep 1])
     else ((g, l), exchange_trace w ++ [ESleep 1])) /\
  (EClose ∉ exchange_trace w) /\
  (forall ws,
     let '((_, l'), tr) := run cfg ws (step cfg w (g, l)).1 in
     (forall p b, EOpen p b ∉ tr) /\
     if FALLBACK_TO_SIM cfg
     then ser l' = None
     else ser l' = Some link /\ (EClose ∉ tr)).
Proof.
  intros Hs Hfail. apply physical_failure_outcome in Hfail.
  assert (Hstep := step_physical cfg w g l link Hs). rewrite Hfail in Hstep.
  repeat apply conj.
  - exact Hstep.
  - apply exchange_trace_no_close.
  - intros ws. rewrite Hstep.
    destruct (FALLBACK_TO_SIM cfg) eqn:Hf; cbn [fst].
    + match goal with |- context [run cfg ws (?g1, ?l1)] =>
        pose proof (run_globals cfg ws g1 l1) as Hg;
        assert (Hn : forall ws' g2, ser (run cfg ws' (g2, l1)).1.2 = None)
      end.
      { clear. intros ws'.
        generalize (sim_state l). induction ws' as [|w' ws' IH]; intros st g2.
        - reflexivity.
        - cbn [run]. rewrite step_simulated by reflexivity. cbn [sim_state].
          destruct (sim_step (random w') st) as [s' [[]|?]].
          + specialize (IH s' (published cfg (stamped w' (sim_reading s')) g2)).
            destruct (run cfg ws' _) as [[g3 l3] t3]. exact IH.
          + specialize (IH s' g2).
            destruct (run cfg ws' _) as [[g3 l3] t3]. exact IH. }
      specialize (Hn ws).
      match goal with |- context [run cfg ws (?g1, ?l1)] =>
        specialize (Hn g1); destruct (run cfg ws (g1, l1)) as [[g' l'] tr]
      end.
      destruct Hg as (_ & _ & Ho). split; [exact Ho|exact Hn].
    + pose proof (run_globals cfg ws g l) as Hg.
      pose proof (run_keeps_link ws g l link Hf Hs) as Hk.
      destruct (run cfg ws (g, l)) as [[g' l'] tr].
      destruct Hg as (_ & _ & Ho), Hk as (Hk1 & Hk2 & _). auto.
Qed.

End Recovery.

(** With fall-back, a failed write on COM4 ends in simulation. *)
Lemma physical_failure_recovery_witness :
  step (default_config 3 true) broken_world (started (Some com4)) =
    (({| history := []; _last_seq := 0; _is_simulating := true |},
      {| ser := None; sim_state := sim_state0 |}),
     [EResetInput; EWrite QUERY_FRAME; EClose; ESimulating true; ESleep 1]).
Proof.
  exact (proj1 (physical_failure_recovery (default_config 3 true)
                  broken_world (fst (started (Some com4)))
                  (snd (started (Some com4))) com4 SerialException
                  eq_refl (or_introl eq_refl))).
Defined.

(** Without fall-back, two failed writes on COM4 leave the worker where
    it was: the link is neither closed nor opened again. *)
Lemma failed_cycles_without_fallback :
  run (default_config 3 false) [broken_world; broken_world]
      (started (Some com4))
  = (started (Some com4),
     [EResetInput; EWrite QUERY_FRAME; ESleep 1;
      EResetInput; EWrite QUERY_FRAME; ESleep 1]).
Proof. vm_compute. reflexivity. Qed.

(** C9 as stated fails: without fall-back the link is not closed, and
    it is not opened again. *)
Lemma no_reconnect_without_fallback :
  ~ closes_then_reconnects (default_config 3 false) broken_world
      (started (Some com4)) [broken_world].
Proof.
  unfold closes_then_reconnects.
  replace (step (default_config 3 false) broken_world (started (Some com4)))
    with (started (Some com4), [EResetInput; EWrite QUERY_FRAME; ESleep 1])
    by (vm_compute; reflexivity).
  unfold started. cbv beta iota zeta.
  match goal with
  | |- context [run ?c ?w ?s] => destruct (run c w s) as [s2 t2]
  end.
  intros [Hc _].
  apply list_elem_of_In in Hc. cbn in Hc. intuition discriminate.
Qed.

(** ** The event stream *)

Section Stream.

Lemma wait_for_blocked (pred : globals -> bool) gs :
  (forall g, g ∈ gs -> pred g = false) -> wait_for pred gs = None.
Proof.
  induction gs as [|g gs IH]; intros H; [reflexivity|].
  cbn [wait_for]. rewrite (H g) by apply list_elem_of_here.
  apply IH. intros g' Hg'. apply H, list_elem_of_further, Hg'.
Qed.

Lemma wait_for_first (pred : globals -> bool) waiting g rest :
  (forall g', g' ∈ waiting -> pred g' = false) -> pred g = true ->
  wait_for pred (waiting ++ g :: rest) = Some g.
Proof.
  induction waiting as [|g0 gs IH]; intros H Hg; cbn [app wait_for].
  - rewrite Hg. reflexivity.
  - rewrite (H g0) by apply list_elem_of_here.
    apply IH; [|exact Hg]. intros g' Hg'. apply H, list_elem_of_further, Hg'.
Qed.

Lemma py_index_last {A} (s : list A) a :
  last s = Some a -> py_index s (-1) = Ok a.
Proof.
  intros [s' ->]%last_Some. unfold py_index.
  rewrite length_app. cbn [length].
  change (-1 <? 0) with true. cbv iota.
  replace (Z.of_nat (length s' + 1) + -1) with (Z.of_nat (length s')) by lia.
  replace ((0 <=? Z.of_nat (length s'))
           && (Z.of_nat (length s') <? Z.of_nat (length s' + 1))) with true
    by (symmetry; apply andb_true_intro; split;
        [apply Z.leb_le|apply Z.ltb_lt]; lia).
  rewrite Nat2Z.id, nth_error_app2, Nat.sub_diag by lia. reflexivity.
Qed.

Lemma py_index_empty {A} (i : Z) : py_index (@nil A) i = Raise IndexError.
Proof.
  unfold py_index. destruct (_ && _); [|reflexivity].
  destruct (Z.to_nat _); reflexivity.
Qed.

(** After any cycles from the initial state the counter counts the
    appends, and with room for at least one reading the history ends
    with the last reading appended. *)
Lemma run_latest cfg ws b l0 :
  let '((g, _), tr) := run cfg ws (initial b, l0) in
  _last_seq g = Z.of_nat (length (appended tr)) /\
  (HISTORY_MAX cfg <> 0%nat -> last (history g) = last (appended tr)).
Proof.
  pose proof (run_globals cfg ws (initial b) l0) as H.
  destruct (run cfg ws (initial b, l0)) as [[g l] tr].
  destruct H as (Hm & Hhist & _).
  apply monitor_counts in Hm. cbn [pending initial _last_seq] in Hm.
  split; [lia|]. intros Hc. rewrite Hhist. cbn [initial history].
  rewrite deque_appends_last by exact Hc.
  destruct (last (appended tr)); reflexivity.
Qed.

(** C7, as the code has it, with room for at least one reading in the
    history. A reader takes [last_seen] from the counter after the
    cycles [before]; the worker goes on with the cycles [after]. While
    the states the reader wakes up to still have the counter at
    [last_seen], [event_stream] stays blocked; at the first one where the
    counter differs, here the state after [after], it yields the reading
    appended last and takes the counter's value as its new [last_seen].
    With no such earlier state the reader does not wait at all. *)
Theorem event_stream_latest (cfg : config) (before after : list world)
    (b : bool) (l0 : locals) (waiting rest : list globals) :
  HISTORY_MAX cfg <> 0%nat ->
  let '((g1, l1), tr1) := run cfg before (initial b, l0) in
  let '((g2, _), tr2) := run cfg after (g1, l1) in
  let last_seen := _last_seq g1 in
  (forall g', g' ∈ waiting -> _last_seq g' = last_seen) ->
  event_stream last_seen waiting = Blocked /\
  (_last_seq g2 <> last_seen ->
   exists d, last (appended (tr1 ++ tr2)) = Some d /\
             event_stream last_seen (waiting ++ g2 :: rest)
             = Yield d (_last_seq g2) /\
             event_stream last_seen (g2 :: rest) = Yield d (_last_seq g2)).
Proof.
  intros Hc.
  pose proof (run_latest cfg before b l0) as H1.
  pose proof (run_latest cfg (before ++ after) b l0) as H2.
  rewrite run_app in H2.
  destruct (run cfg before (initial b, l0)) as [[g1 l1] tr1].
  destruct (run cfg after (g1, l1)) as [[g2 l2] tr2].
  destruct H1 as [Hn1 _], H2 as [Hn2 Hlast]. specialize (Hlast Hc).
  cbv zeta. intros Hwait.
  set (pred := fun g' : globals => negb (_last_seq g' =? _last_seq g1)).
  assert (Hw : forall g', g' ∈ waiting -> pred g' = false).
  { intros g' Hg'. unfold pred. rewrite (Hwait g' Hg'), Z.eqb_refl.
    reflexivity. }
  split.
  - unfold event_stream. fold pred. rewrite wait_for_blocked by exact Hw.
    reflexivity.
  - intros Hne.
    assert (Hg : pred g2 = true).
    { unfold pred. destruct (Z.eqb_spec (_last_seq g2) (_last_seq g1));
        [contradiction|reflexivity]. }
    destruct (last (appended (tr1 ++ tr2))) as [d|] eqn:Hd.
    + exists d. apply py_index_last in Hlast.
      repeat apply conj; [reflexivity| |].
      * unfold event_stream. fold pred.
        rewrite wait_for_first by assumption. rewrite Hlast. reflexivity.
      * unfold event_stream. fold pred. cbn [wait_for].
        rewrite Hg, Hlast. reflexivity.
    + apply last_None in Hd. rewrite Hd in Hn2.
      rewrite appended_app in Hd. apply app_eq_nil in Hd as [Hd1 _].
      rewrite Hd1 in Hn1. cbn [length] in Hn1, Hn2. congruence.
Qed.

End Stream.

(** A reader that took the counter at 0 before any cycle is blocked,
    and after one synthetic cycle is handed the reading of that cycle
    and the counter 1. *)
Lemma event_stream_latest_witness :
  let '((g, _), tr) := run (default_config 3 true) [calm_world] (started None) in
  event_stream 0 [initial true] = Blocked /\
  exists d, last (appended tr) = Some d /\
            event_stream 0 [initial true; g] = Yield d 1.
Proof.
  pose proof (event_stream_latest (default_config 3 true) [] [calm_world]
                true (snd (started None)) [initial true] []
                ltac:(discriminate)) as H.
  unfold run at 1 in H. cbv beta iota zeta in H.
  change (initial true, snd (started None)) with (started None) in H.
  destruct (run (default_config 3 true) [calm_world] (started None))
    as [[g l] tr] eqn:E.
  cbv zeta in H. change (_last_seq (initial true)) with 0 in H.
  cbn [app] in H.
  destruct H as [Hb Hy].
  { intros g' Hg'. apply list_elem_of_singleton in Hg'. subst g'. reflexivity. }
  assert (Hn : _last_seq g = 1).
  { replace g with (fst (fst (run (default_config 3 true) [calm_world]
                                 (started None)))) by (rewrite E; reflexivity).
    vm_compute. reflexivity. }
  split; [exact Hb|].
  assert (Hne : _last_seq g <> 0) by (rewrite Hn; discriminate).
  destruct (Hy Hne) as (d & Hd & Hy' & _).
  exists d. rewrite Hn in Hy'. auto.
Defined.

(** C7 as stated fails when [HISTORY_MAX] is 0: the cycle moves the
    counter to 1 but the history stays empty, and the reader that saw
    the counter at 0 gets [IndexError] instead of a reading. *)
Lemma event_stream_empty_history :
  let g := fst (fst (run (default_config 0 true) [calm_world] (started None))) in
  _last_seq g = 1 /\ history g = [] /\
  event_stream 0 [g] = Failed IndexError /\
  ~ exists d n, event_stream 0 [g] = Yield d n.
Proof.
  vm_compute. repeat apply conj; try reflexivity.
  intros (d & n & H). discriminate H.
Qed.

(** ** More on the checksum *)

Section ChecksumMore.

Lemma odd_lxor a b : Z.odd (Z.lxor a b) = xorb (Z.odd a) (Z.odd b).
Proof. rewrite <- !Z.bit0_odd. apply Z.lxor_spec. Qed.

(** The shift is linear over exclusive or. *)
Lemma crc_shift_lxor a b :
  crc_shift (Z.lxor a b) = Z.lxor (crc_shift a) (crc_shift b).
Proof.
  unfold crc_shift. rewrite !land_1_odd, odd_lxor, Z.shiftr_lxor.
  set (x := Z.shiftr a 1). set (y := Z.shiftr b 1).
  destruct (Z.odd a), (Z.odd b); cbn [xorb negb].
  - rewrite (Z.lxor_comm y), Z.lxor_assoc, <- (Z.lxor_assoc 0xA001),
      Z.lxor_nilpotent, Z.lxor_0_l. reflexivity.
  - rewrite !Z.lxor_assoc. f_equal. apply Z.lxor_comm.
  - rewrite Z.lxor_assoc. reflexivity.
  - reflexivity.
Qed.

Lemma iter_crc_shift_lxor n a b :
  Nat.iter n crc_shift (Z.lxor a b)
  = Z.lxor (Nat.iter n crc_shift a) (Nat.iter n crc_shift b).
Proof.
  induction n as [|n IH]; [reflexivity|].
  rewrite !Nat.iter_succ, IH. apply crc_shift_lxor.
Qed.

(** The shift sends nothing but zero to zero. *)
Lemma crc_shift_nonzero x : u16 x -> x <> 0 -> crc_shift x <> 0.
Proof.
  unfold u16, crc_shift. intros Hx Hn. rewrite land_1_odd.
  assert (Hs : 0 <= Z.shiftr x 1 < 2 ^ 15).
  { rewrite Z.shiftr_div_pow2 by lia. change (2 ^ 1) with 2.
    split; [apply Z.div_pos; lia|]. apply Z.div_lt_upper_bound; lia. }
  destruct (Z.odd x) eqn:Ho; cbn [negb].
  - intros H. apply Z.lxor_eq in H. change (2 ^ 15) with 32768 in Hs. lia.
  - rewrite Z.shiftr_div_pow2 by lia. change (2 ^ 1) with 2.
    rewrite (Zdiv.Zodd_mod x) in Ho. apply Bool.negb_true_iff in Ho.
    intros H. pose proof (Z.div_mod x 2 ltac:(lia)) as Hd.
    rewrite H in Hd. apply Bool.negb_true_iff, Z.eqb_neq in Ho.
    pose proof (Z.mod_pos_bound x 2 ltac:(lia)). lia.
Qed.

Lemma iter_crc_shift_nonzero n x :
  u16 x -> x <> 0 -> Nat.iter n crc_shift x <> 0.
Proof.
  induction n as [|n IH]; intros Hx Hn; [exact Hn|].
  rewrite Nat.iter_succ. apply crc_shift_nonzero; [|apply IH; assumption].
  apply iter_crc_shift, Hx.
Qed.

Lemma byte_val_inj b b' : byte_val b = byte_val b' -> b = b'.
Proof.
  unfold byte_val. intros H. apply N2Z.inj in H.
  pose proof (Byte.of_to_N b) as E1. pose proof (Byte.of_to_N b') as E2.
  rewrite H in E1. congruence.
Qed.

(** A difference in the register goes through the rest of the message
    and stays a difference. *)
Lemma fold_crc_byte_lxor data : forall s delta,
  u16 s -> u16 delta -> delta <> 0 ->
  exists delta', u16 delta' /\ delta' <> 0 /\
    fold_left crc_byte data (Z.lxor s delta)
    = Z.lxor (fold_left crc_byte data s) delta'.
Proof.
  induction data as [|c data IH]; intros s delta Hs Hd Hn.
  - exists delta. auto.
  - cbn [fold_left].
    assert (E : crc_byte (Z.lxor s delta) c
                = Z.lxor (crc_byte s c) (Nat.iter 8 crc_shift delta)).
    { unfold crc_byte. rewrite <- iter_crc_shift_lxor. f_equal.
      rewrite !Z.lxor_assoc. f_equal. apply Z.lxor_comm. }
    rewrite E. apply IH.
    + apply crc_byte_u16, Hs.
    + apply iter_crc_shift, Hd.
    + apply iter_crc_shift_nonzero; assumption.
Qed.

Lemma crc16_byte_change (data : list byte) (k : nat) (b b' : byte) :
  data !! k = Some b -> b' <> b ->
  _crc16_modbus (<[k := b']> data) <> _crc16_modbus data.
Proof.
  intros Hk Hb.
  rewrite <- (take_drop_middle data k b Hk) at 2.
  assert (Hlen : (k < length data)%nat) by (eapply lookup_lt_Some, Hk).
  rewrite insert_take_drop by exact Hlen.
  unfold _crc16_modbus. rewrite !fold_left_app. cbn [fold_left].
  set (t := fold_left crc_byte (take k data) 0xFFFF).
  assert (Ht : u16 t) by (apply fold_crc_byte_u16; unfold u16; lia).
  set (d0 := Z.lxor (byte_val b) (byte_val b')).
  assert (Hd0 : u16 d0 /\ d0 <> 0).
  { pose proof (byte_val_range b). pose proof (byte_val_range b').
    split.
    - apply lxor_below; lia.
    - intros Hz. apply Z.lxor_eq, byte_val_inj in Hz. congruence. }
  destruct Hd0 as [Hd0 Hn0].
  assert (E : crc_byte t b'
              = Z.lxor (crc_byte t b) (Nat.iter 8 crc_shift d0)).
  { unfold crc_byte. rewrite <- iter_crc_shift_lxor. f_equal. unfold d0.
    rewrite Z.lxor_assoc, <- (Z.lxor_assoc (byte_val b)),
      Z.lxor_nilpotent, Z.lxor_0_l. reflexivity. }
  rewrite E.
  destruct (fold_crc_byte_lxor (drop (S k) data) (crc_byte t b)
              (Nat.iter 8 crc_shift d0)) as (d' & Hd' & Hn' & ->).
  - apply crc_byte_u16, Ht.
  - apply iter_crc_shift, Hd0.
  - apply iter_crc_shift_nonzero; assumption.
  - set (r := fold_left crc_byte (drop (S k) data) (crc_byte t b)).
    assert (Hr : u16 r) by (apply fold_crc_byte_u16, crc_byte_u16, Ht).
    rewrite !mask_u16; [|exact Hr|apply lxor_below; unfold u16 in *; lia].
    intros H. apply Hn'.
    assert (E' : d' = Z.lxor r (Z.lxor r d'))
      by (rewrite <- Z.lxor_assoc, Z.lxor_nilpotent, Z.lxor_0_l; reflexivity).
    rewrite H, Z.lxor_nilpotent in E'. exact E'.
Qed.

(** X2: changing one byte of a message, whichever and to whatever,
    changes its checksum. *)
Theorem crc16_detects_byte_change (data : list byte) (k : nat) (b b' : byte) :
  data !! k = Some b -> b' <> b ->
  _crc16_modbus (<[k := b']> data) <> _crc16_modbus data.
Proof. apply crc16_byte_change. Qed.

Lemma crc16_detects_byte_change_witness :
  _crc16_modbus (<[0%nat := xff]> [x01; x02]) <> _crc16_modbus [x01; x02].
Proof.
  apply (crc16_detects_byte_change [x01; x02] 0 x01 xff);
    [reflexivity|discriminate].
Defined.

(** A register whose low [n] bits are clear just moves right. *)
Lemma iter_crc_shift_clear n : forall x,
  x mod 2 ^ Z.of_nat n = 0 ->
  Nat.iter n crc_shift x = x / 2 ^ Z.of_nat n.
Proof.
  induction n as [|n IH]; intros x Hm.
  - cbn [Nat.iter]. change (2 ^ Z.of_nat 0) with 1. rewrite Z.div_1_r.
    reflexivity.
  - rewrite Nat.iter_succ_r.
    rewrite Nat2Z.inj_succ, Z.pow_succ_r in * by lia.
    set (p := 2 ^ Z.of_nat n) in *.
    assert (Hp : 0 < p) by (apply Z.pow_pos_nonneg; lia).
    set (q := x / (2 * p)).
    assert (Hx : x = 2 * (p * q))
      by (unfold q; rewrite Z.mul_assoc; apply Z.div_exact; lia).
    assert (Hs : crc_shift x = p * q).
    { unfold crc_shift. rewrite land_1_odd, Hx, Z.odd_mul. cbn [Z.odd andb negb].
      rewrite Z.shiftr_div_pow2 by lia. change (2 ^ 1) with 2.
      rewrite Z.mul_comm, Z.div_mul by lia. reflexivity. }
    rewrite Hs, IH by (rewrite Z.mul_comm; apply Z.mod_mul; lia).
    rewrite Z.mul_comm, Z.div_mul by lia. reflexivity.
Qed.

(** Exclusive or with the low byte clears it. *)
Lemma lxor_low_byte s : 0 <= s -> Z.lxor s (s mod 256) = 256 * (s / 256).
Proof.
  intros Hs. apply Z.bits_inj'. intros n Hn.
  rewrite Z.lxor_spec. change 256 with (2 ^ 8).
  destruct (Z.lt_ge_cases n 8).
  - rewrite Z.mod_pow2_bits_low by lia.
    rewrite Z.mul_comm, Z.mul_pow2_bits_low by lia.
    apply Bool.xorb_nilpotent.
  - rewrite Z.mod_pow2_bits_high by lia.
    rewrite Z.mul_comm, Z.mul_pow2_bits, Z.div_pow2_bits by lia.
    rewrite Bool.xorb_false_r. f_equal. lia.
Qed.

(** X1: the checksum of a message followed by its own checksum, low
    byte first, is zero. *)
Theorem crc16_residue (body : list byte) :
  _crc16_modbus (append_crc body) = 0.
Proof.
  unfold append_crc.
  pose proof (crc16_u16 body) as Hu.
  set (s := _crc16_modbus body) in *.
  assert (Hs : fold_left crc_byte body 0xFFFF = s).
  { unfold s, _crc16_modbus. symmetry. apply mask_u16, fold_crc_byte_u16.
    unfold u16. lia. }
  unfold _crc16_modbus at 1. rewrite fold_left_app, Hs. cbn [fold_left].
  unfold u16 in Hu. change (2 ^ 16) with 65536 in Hu.
  assert (Hq : 0 <= s / 256 < 256)
    by (split; [apply Z.div_pos; lia|apply Z.div_lt_upper_bound; lia]).
  assert (E1 : crc_byte s (byte_of_Z s) = s / 256).
  { unfold crc_byte. rewrite byte_val_of_Z, lxor_low_byte by lia.
    rewrite (iter_crc_shift_clear 8)
      by (change (2 ^ Z.of_nat 8) with 256; rewrite Z.mul_comm;
          apply Z.mod_mul; lia).
    change (2 ^ Z.of_nat 8) with 256.
    rewrite Z.mul_comm, Z.div_mul by lia. reflexivity. }
  rewrite E1. unfold crc_byte.
  rewrite byte_val_of_Z, Z.mod_small, Z.lxor_nilpotent by exact Hq.
  reflexivity.
Qed.

End ChecksumMore.

(** ** More on the decoder *)

Section CodecMore.

Lemma byte_at_lookup frame i b : frame !! i = Some b -> byte_at frame i = byte_val b.
Proof. intros H. unfold byte_at. rewrite nth_lookup, H. reflexivity. Qed.

Lemma byte_at_insert_ne frame k i b :
  k <> i -> byte_at (<[k := b]> frame) i = byte_at frame i.
Proof.
  intros H. unfold byte_at. rewrite !nth_lookup, list_lookup_insert_ne by exact H.
  reflexivity.
Qed.

Lemma byte_at_insert_eq frame k b :
  (k < length frame)%nat -> byte_at (<[k := b]> frame) k = byte_val b.
Proof.
  intros H. apply byte_at_lookup, list_lookup_insert_eq, H.
Qed.

(** X3: a valid response with one byte changed, whichever of the 19 it
    is, is rejected at the checksum. *)
Theorem parse_frame_rejects_byte_change (frame : list byte) (k : nat)
    (b b' : byte) :
  length frame = 19%nat ->
  trailing_crc frame = _crc16_modbus (firstn 17 frame) ->
  frame !! k = Some b ->
  b' <> b ->
  let frame' := <[k := b']> frame in
  _parse_frame frame' =
    Raise (ChecksumError (trailing_crc frame')
                         (_crc16_modbus (firstn 17 frame'))).
Proof.
  intros Hlen Hcrc Hk Hb frame'.
  assert (Hk19 : (k < 19)%nat) by (rewrite <- Hlen; eapply lookup_lt_Some, Hk).
  assert (Hlen' : length frame' = 19%nat)
    by (unfold frame'; rewrite length_insert; exact Hlen).
  rewrite parse_frame_19 by exact Hlen'.
  assert (Hne : trailing_crc frame' <> _crc16_modbus (firstn 17 frame')).
  { assert (Hv : byte_val b' <> byte_val b)
      by (intros E; apply Hb, byte_val_inj, E).
    pose proof (byte_val_range b). pose proof (byte_val_range b').
    pose proof (byte_at_lookup frame k b Hk) as Hat.
    unfold frame'. destruct (Nat.lt_ge_cases k 17) as [Hlt|Hge].
    - rewrite take_insert_lt by exact Hlt.
      unfold trailing_crc. rewrite !byte_at_insert_ne by lia.
      fold (trailing_crc frame). rewrite Hcrc.
      intros E. symmetry in E. revert E.
      apply (crc16_byte_change _ k b b'); [|exact Hb].
      rewrite lookup_take_lt by exact Hlt. exact Hk.
    - rewrite take_insert_ge by exact Hge. rewrite <- Hcrc.
      unfold trailing_crc.
      assert (Hc : k = 17%nat \/ k = 18%nat) by lia.
      destruct Hc as [-> | ->].
      + rewrite byte_at_insert_eq, byte_at_insert_ne by lia. lia.
      + rewrite byte_at_insert_ne, byte_at_insert_eq by lia. lia. }
  destruct (Z.eqb_spec (trailing_crc frame') (_crc16_modbus (firstn 17 frame')));
    [contradiction|reflexivity].
Qed.

Lemma parse_frame_rejects_byte_change_witness :
  _parse_frame (<[5%nat := xff]> sample_response) =
    Raise (ChecksumError 0x947E 0x42D4).
Proof.
  etransitivity;
    [apply (parse_frame_rejects_byte_change sample_response 5 x01 xff)|].
  - reflexivity.
  - vm_compute. reflexivity.
  - reflexivity.
  - discriminate.
  - vm_compute. reflexivity.
Defined.

Lemma byte_pair_u16 r :
  u16 r ->
  256 * byte_val (byte_of_Z (r / 256)) + byte_val (byte_of_Z r) = r.
Proof.
  unfold u16. change (2 ^ 16) with 65536. intros H.
  rewrite !byte_val_of_Z.
  rewrite (Z.mod_small (r / 256))
    by (split; [apply Z.div_pos; lia|apply Z.div_lt_upper_bound; lia]).
  pose proof (Z.div_mod r 256). lia.
Qed.

(** X4: decoding inverts the wire format: the response that carries seven
    16-bit registers from any address decodes to these registers, the
    tenths divided by 10, and to that address. *)
Theorem parse_frame_response (address : byte) (r0 r1 r2 r3 r4 r5 r6 : Z) :
  u16 r0 -> u16 r1 -> u16 r2 -> u16 r3 -> u16 r4 -> u16 r5 -> u16 r6 ->
  _parse_frame (response address [r0; r1; r2; r3; r4; r5; r6]) =
    Ok (<["potassium" := Num (Int r6)]>
       (<["phosphorus" := Num (Int r5)]>
       (<["nitrogen" := Num (Int r4)]>
       (<["ph" := Num (tenths r3)]>
       (<["conductivity" := Num (Int r2)]>
       (<["temperature" := Num (tenths r1)]>
       (<["humidity" := Num (tenths r0)]>
       (<["sensor_id" := Num (Int (byte_val address))]> ∅)))))))).
Proof.
  intros H0 H1 H2 H3 H4 H5 H6. unfold response. cbn [flat_map app].
  match goal with |- context [append_crc ?b] => set (body := b) end.
  destruct (append_crc_valid body eq_refl) as (Hlen & Hfst & Hcrc & Hat).
  rewrite parse_frame_19 by exact Hlen.
  rewrite Hfst, Hcrc, Z.eqb_refl. cbn [negb].
  rewrite !Hat by lia.
  change (byte_at body 1) with 3. change (byte_at body 2) with 14.
  cbn [Z.eqb Pos.eqb negb].
  unfold decoded, register. cbn [Nat.mul Nat.add]. rewrite !Hat by lia.
  unfold body, byte_at. cbn [nth].
  rewrite !byte_pair_u16 by assumption. reflexivity.
Qed.

(** The example response carries the example registers. *)
Lemma parse_frame_response_witness :
  _parse_frame sample_response =
    Ok (<["potassium" := Num (Int 30)]>
       (<["phosphorus" := Num (Int 15)]>
       (<["nitrogen" := Num (Int 20)]>
       (<["ph" := Num (tenths 65)]>
       (<["conductivity" := Num (Int 400)]>
       (<["temperature" := Num (tenths 350)]>
       (<["humidity" := Num (tenths 550)]>
       (<["sensor_id" := Num (Int 1)]> ∅)))))))).
Proof.
  apply (parse_frame_response x01 550 350 400 65 20 15 30);
    unfold u16; change (2 ^ 16) with 65536; lia.
Defined.

(** X5: whatever the frame, [_parse_frame] ends in one of five ways: one of
    its four errors, or the reading of the frame. It raises nothing
    else, and in a reading [sensor_id] is within 0..255 and every
    register within 0..65535. *)
Theorem parse_frame_outcomes (frame : list byte) :
  _parse_frame frame = Raise (FrameLengthError (length frame)) \/
  _parse_frame frame =
    Raise (ChecksumError (trailing_crc frame)
                         (_crc16_modbus (firstn 17 frame))) \/
  _parse_frame frame = Raise (FunctionCodeError (byte_at frame 1)) \/
  _parse_frame frame = Raise (ByteCountError (byte_at frame 2)) \/
  (_parse_frame frame = Ok (decoded frame) /\
   0 <= byte_at frame 0 <= 255 /\
   (forall i, 0 <= register frame i <= 65535) /\
   dom (decoded frame) =
     list_to_set ["sensor_id"; "humidity"; "temperature"; "conductivity";
                  "ph"; "nitrogen"; "phosphorus"; "potassium"]).
Proof.
  destruct (Nat.eq_dec (length frame) 19%nat) as [Hlen|Hlen].
  - rewrite parse_frame_19 by exact Hlen.
    destruct (trailing_crc frame =? _); cbn [negb]; [|auto].
    destruct (byte_at frame 1 =? 3); cbn [negb]; [|auto].
    destruct (byte_at frame 2 =? 14); cbn [negb]; [|auto].
    do 4 right. split; [reflexivity|]. split; [|split].
    + pose proof (byte_val_range (nth 0 frame x00)). unfold byte_at. lia.
    + intros i. pose proof (register_u16 (nth (3 + 2 * i) frame x00)
                              (nth (4 + 2 * i) frame x00)) as H.
      unfold u16 in H. change (2 ^ 16) with 65536 in H.
      unfold register, byte_at. lia.
    + unfold decoded. rewrite !dom_insert_L, dom_empty_L.
      cbn [list_to_set]. set_solver.
  - left. unfold _parse_frame.
    destruct (Nat.eqb_spec (length frame) 19); [contradiction|reflexivity].
Qed.

End CodecMore.

(** ** More on the acquisition loop *)

Section WorkerMore.

Variable cfg : config.

(** X6: the sleep that ends a cycle is never shorter than 0.1 second,
    whatever [POLL_INTERVAL] is, not a number included. *)
Theorem cycle_rest_floor : (0.1 <=? cycle_rest cfg)%float = true.
Proof.
  unfold cycle_rest.
  destruct (PrimFloat.ltb 0.1 (POLL_INTERVAL cfg - 0.2)) eqn:E.
  - rewrite FloatAxioms.ltb_spec in E. rewrite FloatAxioms.leb_spec.
    unfold SFltb in E. unfold SFleb.
    destruct (SFcompare _ _) as [[]|]; congruence.
  - vm_compute. reflexivity.
Qed.


(** X8: a cycle does not depend on what [reset_input_buffer] and [close]
    do: their exceptions are swallowed. *)
Theorem step_ignores_reset_and_close (w w' : world) (s : wstate) :
  write w = write w' ->
  read w = read w' ->
  random w = random w' ->
  utcnow_isoformat w = utcnow_isoformat w' ->
  step cfg w s = step cfg w' s.
Proof.
  intros Hw Hr Hn Ht. destruct s as [g l].
  destruct (ser l) as [link|] eqn:Hs.
  - rewrite !(step_physical cfg _ g l link Hs).
    unfold physical_outcome, exchange, exchange_trace, stamped.
    rewrite Hw, Hr, Ht. reflexivity.
  - rewrite !(step_simulated cfg _ g l Hs). unfold stamped.
    rewrite Hn, Ht. reflexivity.
Qed.

(** X9: a cycle appends a reading exactly when it has one: on the link,
    when a full response decodes, that reading with its time stamp;
    when simulating, the sample of the source unless it raises. *)
Theorem step_appends (w : world) (g : globals) (l : locals) :
  appended (snd (step cfg w (g, l))) =
    match ser l with
    | Some _ =>
        match physical_outcome w with
        | Ok (Some data) => [stamped w data]
        | _ => []
        end
    | None =>
        match sim_step (random w) (sim_state l) with
        | (s', Ok _) => [stamped w (sim_reading s')]
        | (_, Raise _) => []
        end
    end.
Proof.
  destruct (ser l) as [link|] eqn:Hs.
  - rewrite (step_physical cfg w g l link Hs).
    destruct (monitor_quiet 0 _ (exchange_trace_quiet w)) as [_ Hq].
    destruct (physical_outcome w) as [[data|]|?];
      [|cbn [snd]; rewrite appended_app, Hq; reflexivity|
       destruct (FALLBACK_TO_SIM cfg); cbn [snd];
         rewrite appended_app, Hq; reflexivity].
    cbn [snd]. rewrite appended_app, Hq. reflexivity.
  - rewrite (step_simulated cfg w g l Hs).
    destruct (sim_step (random w) (sim_state l)) as [s' [[]|?]]; reflexivity.
Qed.

Lemma connect_cases (pyserial : bool) (opened : result Serial)
    (g : globals) (l : locals) :
  let '((g', l'), tr, r) := connect cfg pyserial opened (g, l) in
  match opened with
  | Raise e =>
      if pyserial && negb (FALLBACK_TO_SIM cfg)
      then r = Raise e /\ g' = g /\ ser l' = None
      else r = Ok tt /\ ser l' = None /\ _is_simulating g' = true /\
           sim_state l' = sim_state0
  | Ok link =>
      r = Ok tt /\ sim_state l' = sim_state0 /\
      if pyserial
      then ser l' = Some link /\ _is_simulating g' = false
      else ser l' = None /\ _is_simulating g' = true /\
           (forall p b, EOpen p b ∉ tr)
  end.
Proof.
  destruct g as [h n b], l as [s st].
  destruct pyserial, opened as [link|e], (FALLBACK_TO_SIM cfg) eqn:Ef;
    unfold connect; rewrite ?Ef; cbn; repeat apply conj; try reflexivity.
  all: intros p b' Hin; apply list_elem_of_In in Hin; cbn in Hin;
    intuition discriminate.
Qed.

(** X10: opening the link fails the worker in one case only: [pyserial] is
    there, the port cannot be opened and fall-back is off. The exception
    is then the one of the port and the globals are untouched. In every
    other case the worker enters its loop, and without [pyserial] it
    simulates even if fall-back is off. *)
Theorem connect_outcome (pyserial : bool) (opened : result Serial)
    (g : globals) (l : locals) :
  let '((g', l'), tr, r) := connect cfg pyserial opened (g, l) in
  match opened with
  | Raise e =>
      if pyserial && negb (FALLBACK_TO_SIM cfg)
      then r = Raise e /\ g' = g /\ ser l' = None
      else r = Ok tt /\ ser l' = None /\ _is_simulating g' = true /\
           sim_state l' = sim_state0
  | Ok link =>
      r = Ok tt /\ sim_state l' = sim_state0 /\
      if pyserial
      then ser l' = Some link /\ _is_simulating g' = false
      else ser l' = None /\ _is_simulating g' = true /\
           (forall p b, EOpen p b ∉ tr)
  end.
Proof. apply connect_cases. Qed.

(** X11: the flag tells the truth: once the worker has entered its loop,
    [_is_simulating] holds exactly when it has no link, after any
    number of cycles. *)
Theorem simulating_iff_no_link (pyserial : bool) (opened : result Serial)
    (s : wstate) (ws : list world) :
  let '(s0, _, r) := connect cfg pyserial opened s in
  r = Ok tt ->
  let '((g, l), _) := run cfg ws s0 in
  _is_simulating g = true <-> ser l = None.
Proof.
  destruct s as [g0 l0].
  pose proof (connect_cases pyserial opened g0 l0) as Hc.
  destruct (connect cfg pyserial opened (g0, l0)) as [[[g1 l1] t1] r].
  intros Hr.
  assert (H1 : _is_simulating g1 = true <-> ser l1 = None).
  { destruct opened as [link|e].
    - destruct Hc as (_ & _ & Hc). destruct pyserial.
      + destruct Hc as [-> ->]. split; discriminate.
      + destruct Hc as (-> & -> & _). split; reflexivity.
    - destruct (pyserial && negb (FALLBACK_TO_SIM cfg)).
      + destruct Hc as (Hc & _). congruence.
      + destruct Hc as (_ & -> & -> & _). split; reflexivity. }
  clear Hc Hr. revert g1 l1 H1.
  induction ws as [|w ws IH]; intros g1 l1 H1; [exact H1|].
  cbn [run].
  destruct (step cfg w (g1, l1)) as [[g2 l2] t2] eqn:E.
  specialize (IH g2 l2).
  destruct (run cfg ws (g2, l2)) as [[g3 l3] t3]. apply IH. clear IH.
  destruct (ser l1) as [link|] eqn:Hs.
  - rewrite (step_physical cfg w g1 l1 link Hs) in E.
    destruct (physical_outcome w) as [[data|]|?].
    + injection E as <- <- _. cbn [published _is_simulating].
      rewrite Hs. exact H1.
    + injection E as <- <- _. rewrite Hs. exact H1.
    + destruct (FALLBACK_TO_SIM cfg).
      * injection E as <- <- _. split; reflexivity.
      * injection E as <- <- _. rewrite Hs. exact H1.
  - rewrite (step_simulated cfg w g1 l1 Hs) in E.
    destruct (sim_step (random w) (sim_state l1)) as [s' [[]|?]];
      injection E as <- <- _; cbn [published _is_simulating ser]; exact H1.
Qed.

Lemma sim_step_in_range rnd s :
  (forall k, unit_draw (rnd k)) -> in_range s ->
  exists s', sim_step rnd s = (s', Ok tt) /\ in_range s'.
Proof.
  intros Hr Hs.
  destruct (sim_step_unit rnd s Hr Hs)
    as (h & t & p & dc & dn & dp & dk & Hstep).
  eexists. split; [exact Hstep|].
  split; cbn [humidity temperature ph conductivity nitrogen phosphorus
              potassium];
    try (apply clamp_within; lia); apply Z.le_max_l.
Qed.

Lemma stamped_sensor_id w d v :
  d !! "sensor_id" = Some v -> stamped w d !! "sensor_id" = Some v.
Proof.
  intros H. unfold stamped. rewrite lookup_insert_ne by discriminate. exact H.
Qed.

Lemma sim_reading_sensor_id s :
  sim_reading s !! "sensor_id" = Some (Num (Int 1)).
Proof.
  unfold sim_reading. rewrite !lookup_insert_ne by discriminate.
  apply lookup_insert_eq.
Qed.

Lemma appended_published d n x :
  appended (critical_section d n ++ [ESleep x]) = [d].
Proof. reflexivity. Qed.

Lemma simulated_run (ws : list world) (g : globals) (l : locals) :
  ser l = None ->
  in_range (sim_state l) ->
  Forall (fun w => forall k, unit_draw (random w k)) ws ->
  let '((g', l'), tr) := run cfg ws (g, l) in
  ser l' = None /\
  in_range (sim_state l') /\
  _is_simulating g' = _is_simulating g /\
  _last_seq g' = _last_seq g + Z.of_nat (length ws) /\
  length (appended tr) = length ws /\
  Forall (fun d => d !! "sensor_id" = Some (Num (Int 1))) (appended tr) /\
  existsb uses_link tr = false.
Proof.
  intros Hs Hin Hws. revert g l Hs Hin.
  induction Hws as [|w ws Hw _ IH]; intros g l Hs Hin.
  - cbn [run length appended omap existsb].
    repeat apply conj; try assumption; try reflexivity; [lia|constructor].
  - cbn [run]. rewrite (step_simulated cfg w g l Hs).
    destruct (sim_step_in_range _ _ Hw Hin) as (s' & -> & Hin').
    cbv zeta iota.
    match goal with |- context [run cfg ws (?g1, ?l1)] =>
      specialize (IH g1 l1 eq_refl Hin');
      destruct (run cfg ws (g1, l1)) as [[g2 l2] t2]
    end.
    destruct IH as (Hs2 & Hin2 & Hf2 & Hn2 & Hl2 & Hid2 & Hu2).
    rewrite appended_app, appended_published. cbn [app length].
    split; [exact Hs2|]. split; [exact Hin2|].
    split; [rewrite Hf2; reflexivity|].
    split; [rewrite Hn2; cbn [published _last_seq length]; lia|].
    split; [rewrite Hl2; reflexivity|].
    split.
    + constructor; [|exact Hid2].
      apply stamped_sensor_id, sim_reading_sensor_id.
    + rewrite !existsb_app, Hu2. reflexivity.
Qed.

(** X12: simulation goes on for ever: without a link, and with draws in
    [0, 1), every cycle publishes one reading from sensor 1 and moves
    the counter by one; the worker never touches a link again, the flag
    stays as it is and the source stays in range. *)
Theorem simulated_cycles_publish (ws : list world) (g : globals)
    (l : locals) :
  ser l = None ->
  in_range (sim_state l) ->
  Forall (fun w => forall k, unit_draw (random w k)) ws ->
  let '((g', l'), tr) := run cfg ws (g, l) in
  ser l' = None /\
  in_range (sim_state l') /\
  _is_simulating g' = _is_simulating g /\
  _last_seq g' = _last_seq g + Z.of_nat (length ws) /\
  length (appended tr) = length ws /\
  Forall (fun d => d !! "sensor_id" = Some (Num (Int 1))) (appended tr) /\
  existsb uses_link tr = false.
Proof. apply simulated_run. Qed.

(** X13: when the port cannot be opened and fall-back is on, the worker
    starts in simulation and keeps producing: after any number of cycles
    with draws in [0, 1) it has published one reading per cycle, the
    flag says simulating, and no cycle has touched a link. *)
Theorem fallback_start_simulates (e : exn) (g : globals) (l : locals)
    (ws : list world) :
  FALLBACK_TO_SIM cfg = true ->
  Forall (fun w => forall k, unit_draw (random w k)) ws ->
  let '(s0, _, r) := connect cfg true (Raise e) (g, l) in
  r = Ok tt /\
  let '((g', _), tr) := run cfg ws s0 in
  _is_simulating g' = true /\
  _last_seq g' = _last_seq g + Z.of_nat (length ws) /\
  length (appended tr) = length ws /\
  existsb uses_link tr = false.
Proof.
  intros Hf Hws.
  pose proof (connect_cases true (Raise e) g l) as Hc.
  pose proof (connect_globals cfg true (Raise e) g l) as Hg.
  destruct (connect cfg true (Raise e) (g, l)) as [[[g1 l1] t1] r].
  rewrite Hf in Hc. cbn [andb negb] in Hc.
  destruct Hc as (-> & Hs1 & Hf1 & Hst), Hg as [_ Hn1].
  split; [reflexivity|].
  pose proof (simulated_run ws g1 l1 Hs1) as Hr.
  rewrite Hst in Hr. specialize (Hr sim_state0_in_range Hws).
  destruct (run cfg ws (g1, l1)) as [[g2 l2] t2].
  destruct Hr as (_ & _ & Hf2 & Hn2 & Hl2 & _ & Hu2).
  repeat apply conj; [congruence|congruence|exact Hl2|exact Hu2].
Qed.

(** X14: the clamps alone bring any state of the source into range,
    even one that holds not-a-number, which goes to the upper bound. *)
Theorem sim_clamp_restores (s : sim) :
  exists s',
    exec sim_clamp s = (s', Ok tt) /\
    in_range s' /\
    (humidity s = Float nan -> humidity s' = Int 100) /\
    (temperature s = Float nan -> temperature s' = Int 60) /\
    (ph s = Float nan -> ph s' = Int 14).
Proof.
  eexists. split; [reflexivity|].
  cbn [set_potassium set_phosphorus set_nitrogen set_conductivity set_ph
       set_temperature set_humidity humidity temperature ph conductivity
       nitrogen phosphorus potassium].
  repeat apply conj.
  - split; cbn [humidity temperature ph conductivity nitrogen phosphorus
                potassium];
      try (apply clamp_within; lia); apply Z.le_max_l.
  - intros ->. vm_compute. reflexivity.
  - intros ->. vm_compute. reflexivity.
  - intros ->. vm_compute. reflexivity.
Qed.

End WorkerMore.

Lemma calm_draws : forall k, unit_draw (random calm_world k).
Proof. intros k. split; vm_compute; reflexivity. Qed.


Lemma step_ignores_reset_and_close_witness :
  step (default_config 3 true) deaf_world (started (Some com4))
  = step (default_config 3 true) calm_world (started (Some com4)).
Proof.
  apply (step_ignores_reset_and_close (default_config 3 true)
           deaf_world calm_world); reflexivity.
Defined.

Lemma simulating_iff_no_link_witness :
  let '((g, l), _) := run (default_config 3 true) [calm_world] (started None) in
  _is_simulating g = true <-> ser l = None.
Proof.
  exact (simulating_iff_no_link (default_config 3 true) true
           (Raise SerialException) (started None) [calm_world] eq_refl).
Defined.

Lemma simulated_cycles_publish_witness :
  let '((g', l'), tr) :=
    run (default_config 3 true) [calm_world; calm_world] (started None) in
  ser l' = None /\
  in_range (sim_state l') /\
  _is_simulating g' = true /\
  _last_seq g' = 2 /\
  length (appended tr) = 2%nat /\
  Forall (fun d => d !! "sensor_id" = Some (Num (Int 1))) (appended tr) /\
  existsb uses_link tr = false.
Proof.
  exact (simulated_cycles_publish (default_config 3 true)
           [calm_world; calm_world] (fst (started None)) (snd (started None))
           eq_refl sim_state0_in_range
           ltac:(repeat constructor; apply calm_draws)).
Defined.

Lemma fallback_start_simulates_witness :
  let g := fst (started (Some com4)) in
  let l := snd (started (Some com4)) in
  let ws := [calm_world; calm_world] in
  let '(s0, _, r) :=
    connect (default_config 3 true) true (Raise SerialException) (g, l) in
  r = Ok tt /\
  let '((g', _), tr) := run (default_config 3 true) ws s0 in
  _is_simulating g' = true /\
  _last_seq g' = _last_seq g + Z.of_nat (length ws) /\
  length (appended tr) = length ws /\
  existsb uses_link tr = false.
Proof.
  intros g l ws.
  apply (fallback_start_simulates (default_config 3 true) SerialException
           g l ws).
  - reflexivity.
  - repeat constructor; apply calm_draws.
Defined.

(** ** What the readers are given *)

Section Readers.

Variable cfg : config.

Lemma parse_frame_Ok frame d : _parse_frame frame = Ok d -> d = decoded frame.
Proof.
  intros H. destruct (Nat.eq_dec (length frame) 19%nat) as [Hlen|Hlen].
  - rewrite parse_frame_19 in H by exact Hlen.
    destruct (negb (trailing_crc frame =? _)); [discriminate|].
    destruct (negb (byte_at frame 1 =? 3)); [discriminate|].
    destruct (negb (byte_at frame 2 =? 14)); [discriminate|].
    congruence.
  - unfold _parse_frame in H.
    destruct (Nat.eqb_spec (length frame) 19); [contradiction|discriminate].
Qed.

Lemma stamped_well_formed w d :
  dom d = list_to_set ["sensor_id"; "humidity"; "temperature";
                       "conductivity"; "ph"; "nitrogen"; "phosphorus";
                       "potassium"] ->
  well_formed (stamped w d).
Proof.
  intros H. split.
  - unfold stamped. rewrite dom_insert_L, H. cbn [list_to_set]. set_solver.
  - exists (utcnow_isoformat w). unfold stamped. apply lookup_insert_eq.
Qed.

Lemma decoded_dom frame :
  dom (decoded frame) =
    list_to_set ["sensor_id"; "humidity"; "temperature"; "conductivity";
                 "ph"; "nitrogen"; "phosphorus"; "potassium"].
Proof.
  unfold decoded. rewrite !dom_insert_L, dom_empty_L.
  cbn [list_to_set]. set_solver.
Qed.

Lemma sim_reading_dom s :
  dom (sim_reading s) =
    list_to_set ["sensor_id"; "humidity"; "temperature"; "conductivity";
                 "ph"; "nitrogen"; "phosphorus"; "potassium"].
Proof.
  unfold sim_reading. rewrite !dom_insert_L, dom_empty_L.
  cbn [list_to_set]. set_solver.
Qed.

Lemma deque_append_Forall {A} (P : A -> Prop) cap (d : list A) x :
  Forall P d -> P x -> Forall P (deque_append cap d x).
Proof.
  intros Hd Hx. unfold deque_append.
  assert (H : Forall P (d ++ [x])) by (apply Forall_app; auto).
  destruct (_ <? _)%nat; [|exact H].
  destruct (d ++ [x]); [exact H|]. cbn [tail]. inversion H; assumption.
Qed.

Lemma step_well_formed w g l :
  Forall well_formed (history g) ->
  Forall well_formed (history (step cfg w (g, l)).1.1).
Proof.
  intros H. destruct (ser l) as [link|] eqn:Hs.
  - rewrite (step_physical cfg w g l link Hs).
    destruct (physical_outcome w) as [[data|]|?] eqn:Ho;
      [|exact H|destruct (FALLBACK_TO_SIM cfg); exact H].
    cbn [fst published history]. apply deque_append_Forall; [exact H|].
    apply stamped_well_formed.
    unfold physical_outcome in Ho.
    destruct (exchange w) as [resp|?]; [|discriminate].
    cbn [mbind result_bind] in Ho.
    destruct (negb (length resp =? 19)%nat); [discriminate|].
    destruct (_parse_frame resp) as [d|?] eqn:Hp; [|discriminate].
    cbn [mbind result_bind] in Ho. injection Ho as <-.
    rewrite (parse_frame_Ok resp d Hp). apply decoded_dom.
  - rewrite (step_simulated cfg w g l Hs).
    destruct (sim_step (random w) (sim_state l)) as [s' [[]|?]]; [|exact H].
    cbn [fst published history]. apply deque_append_Forall; [exact H|].
    apply stamped_well_formed, sim_reading_dom.
Qed.

Lemma run_well_formed ws : forall g l,
  Forall well_formed (history g) ->
  Forall well_formed (history (run cfg ws (g, l)).1.1).
Proof.
  induction ws as [|w ws IH]; intros g l H; [exact H|].
  cbn [run]. pose proof (step_well_formed w g l H) as H1.
  destruct (step cfg w (g, l)) as [[g1 l1] t1]. cbn [fst] in H1.
  specialize (IH g1 l1 H1).
  destruct (run cfg ws (g1, l1)) as [[g2 l2] t2]. exact IH.
Qed.

(** X15: readers only ever see complete readings: whatever the cycles bring,
    every reading in the history, and so every one [get_history] returns,
    has the eight fields and a time stamp ending in "Z". *)
Theorem history_well_formed (ws : list world) (b : bool) (l0 : locals) :
  let g := (run cfg ws (initial b, l0)).1.1 in
  Forall well_formed (history g) /\
  Forall well_formed (get_history g).
Proof.
  cbv zeta.
  assert (H : Forall well_formed (history (run cfg ws (initial b, l0)).1.1))
    by (apply run_well_formed; constructor).
  split; [exact H|]. unfold get_history, py_take_last.
  apply Forall_drop, H.
Qed.

End Readers.

(** ** The request handlers *)

Section Handlers.

Variable cfg : config.

Lemma run_history ws b l0 :
  let '((g, _), tr) := run cfg ws (initial b, l0) in
  history g = drop (length (appended tr) - HISTORY_MAX cfg) (appended tr).
Proof.
  pose proof (run_globals cfg ws (initial b) l0) as H.
  destruct (run cfg ws (initial b, l0)) as [[g l] tr].
  destruct H as (_ & Hh & _). rewrite Hh. cbn [initial history].
  rewrite deque_appends by (cbn [length]; lia). reflexivity.
Qed.

(** X16: [status()] reports as [history_len] the number of readings appended
    so far, capped at [HISTORY_MAX]. *)
Theorem status_history_len (ws : list world) (b : bool) (l0 : locals) :
  let '((g, _), tr) := run cfg ws (initial b, l0) in
  status cfg g !! "history_len"
  = Some (JInt (Z.of_nat (Nat.min (length (appended tr)) (HISTORY_MAX cfg)))).
Proof.
  pose proof (run_history ws b l0) as H.
  destruct (run cfg ws (initial b, l0)) as [[g l] tr].
  unfold status. rewrite lookup_insert_eq, H, length_drop.
  do 3 f_equal. lia.
Qed.

(** X17: [get_history()] returns the most recent readings, oldest first: the
    last 500 appended, or the last [HISTORY_MAX] if that is less; never
    more than 500. *)
Theorem get_history_recent (ws : list world) (b : bool) (l0 : locals) :
  let '((g, _), tr) := run cfg ws (initial b, l0) in
  let xs := appended tr in
  let k := Nat.min 500 (HISTORY_MAX cfg) in
  get_history g = drop (length xs - k) xs /\
  length (get_history g) = Nat.min (length xs) k /\
  (length (get_history g) <= 500)%nat.
Proof.
  pose proof (run_history ws b l0) as H.
  destruct (run cfg ws (initial b, l0)) as [[g l] tr]. cbv zeta.
  assert (E : get_history g
              = drop (length (appended tr) - Nat.min 500 (HISTORY_MAX cfg))
                     (appended tr)).
  { unfold get_history, py_take_last. rewrite H, drop_drop, length_drop.
    f_equal. lia. }
  rewrite E, length_drop. repeat apply conj; [reflexivity|lia|lia].
Qed.

(** X18: for requests handled one after the other, however many come, the
    worker thread is started once, by the first request that is not for
    [/status]; [status] alone never starts it, and a started worker is
    never started again. *)
Theorem serve_starts_once (rs : list route) :
  serve rs false
  = (existsb starts_worker rs, if existsb starts_worker rs then 1 else 0)%nat
  /\ serve rs true = (true, 0%nat).
Proof.
  assert (Ht : forall rs', serve rs' true = (true, 0%nat)).
  { induction rs' as [|r rs' IH]; [reflexivity|].
    cbn [serve]. destruct r; cbn [handle start_worker_once negb];
      rewrite IH; reflexivity. }
  split; [|apply Ht].
  induction rs as [|r rs IH]; [reflexivity|].
  cbn [serve existsb].
  destruct r; cbn [handle start_worker_once negb starts_worker orb];
    rewrite ?Ht, ?IH; reflexivity.
Qed.

Lemma event_stream_first last_seen gs :
  event_stream last_seen gs = first_outcome (event_stream_loop last_seen gs).
Proof.
  unfold event_stream. induction gs as [|g gs IH]; [reflexivity|].
  cbn [wait_for event_stream_loop].
  destruct (negb (_last_seq g =? last_seen)); [|exact IH].
  destruct (py_index (history g) (-1)) as [d|e]; [|reflexivity].
  destruct (event_stream_loop (_last_seq g) gs). reflexivity.
Qed.

Lemma stream_keeps_up ws : forall g l,
  HISTORY_MAX cfg <> 0%nat ->
  let xs := appended (run cfg ws (g, l)).2 in
  event_stream_loop (_last_seq g) (states cfg ws (g, l))
  = (zip xs (seqZ (_last_seq g + 1) (Z.of_nat (length xs))), None).
Proof.
  induction ws as [|w ws IH]; intros g l Hc; [reflexivity|].
  cbn [run states]. pose proof (step_shape cfg w g l) as Hs.
  destruct (step cfg w (g, l)) as [[g1 l1] t1]. cbn [fst].
  specialize (IH g1 l1 Hc). cbv zeta in IH.
  destruct (run cfg ws (g1, l1)) as [[g2 l2] t2]. cbn [snd] in *.
  rewrite appended_app. cbn [event_stream_loop].
  destruct Hs as [(d & pre & Hq & -> & ->)|(Hq & Hh & Hn)].
  - destruct (monitor_quiet 0 pre Hq) as [_ Hp].
    rewrite appended_app, Hp, appended_published. cbn [app length].
    cbn [published _last_seq history] in *.
    replace (_last_seq g + 1 =? _last_seq g) with false
      by (symmetry; apply Z.eqb_neq; lia).
    cbn [negb].
    rewrite (py_index_last _ d) by (apply deque_append_last, Hc).
    rewrite IH, Nat2Z.inj_succ.
    rewrite (seqZ_cons (_last_seq g + 1)) by lia.
    rewrite Z.pred_succ. cbn [zip zip_with]. reflexivity.
  - destruct (monitor_quiet 0 t1 Hq) as [_ ->]. cbn [app].
    rewrite Hn, Z.eqb_refl. cbn [negb]. rewrite <- Hn. exact IH.
Qed.

(** X19: a reader that wakes up after every cycle is given every reading
    once, in the order they were appended, each with the counter it
    moved to, and is then left waiting; [event_stream] is the first step
    of this loop. *)
Theorem stream_yields_every_reading (ws : list world) (g : globals)
    (l : locals) :
  HISTORY_MAX cfg <> 0%nat ->
  let xs := appended (run cfg ws (g, l)).2 in
  event_stream_loop (_last_seq g) (states cfg ws (g, l))
  = (zip xs (seqZ (_last_seq g + 1) (Z.of_nat (length xs))), None) /\
  forall last_seen gs,
    event_stream last_seen gs
    = first_outcome (event_stream_loop last_seen gs).
Proof.
  intros Hc. split; [apply stream_keeps_up, Hc|apply event_stream_first].
Qed.

End Handlers.

Lemma stream_yields_every_reading_witness :
  let xs := appended (run (default_config 3 true) [calm_world; calm_world]
                          (started None)).2 in
  event_stream_loop 0 (states (default_config 3 true) [calm_world; calm_world]
                              (started None))
  = (zip xs [1; 2], None).
Proof.
  refine (eq_trans
            (proj1 (stream_yields_every_reading (default_config 3 true)
                      [calm_world; calm_world] (fst (started None))
                      (snd (started None)) _)) _).
  - discriminate.
  - vm_compute. reflexivity.
Defined.
